(** * mc-map-generator: crop geometry, input validation and job tracking

    A shallow embedding of the service's JavaScript sources:
    - [src/utils.js]: job ids, input validation, response objects;
    - [src/screenshot.js] in its two revisions (the 8k-only one and the
      size-parameterized one): the crop computation of [processImage], the
      result object of [generateMap], and [generateMap] as a session of
      awaited calls;
    - [src/server.js]: the [POST /api/generate] handler with its completion
      handlers, [GET /api/status/:jobId], [POST /api/cleanup], the health
      check and the statistics;
    - [src/storage.js]: the image URL and the listing of the images.

    JavaScript objects are finite maps from property names to values,
    numbers that the code only uses as integers are [Z], and the places
    where the code computes with fractions go through [Q].  The server is
    a state machine over its two module variables and the promises in
    flight; clock readings, the outcome of a render and the answers of the
    file system are inputs of its events.  Log output is left out. *)

From Stdlib Require Import ZArith QArith Qround Lia String Ascii List.
From stdpp Require Import base option gmap strings list pretty.

Local Open Scope string_scope.
Local Open Scope Z_scope.

(** ** JavaScript values *)

(** The values that reach the modelled code: request-body fields, job-record
    properties and response properties.  [JSNumber] carries integer-valued
    numbers; [JSNaN] is the one other number the code tests for.  Numbers
    with a fraction, the infinities and arrays have no constructor: what is
    stated for every [JSValue] below is stated for the values built from
    these seven. *)
#[warnings="-register-all"] Inductive JSValue : Type :=
| JSUndefined
| JSNull
| JSBool (b : bool)
| JSNumber (n : Z)
| JSNaN
| JSString (s : string)
| JSObject (fields : gmap string JSValue).

(** A plain object such as a request body, a job record or a response. *)
Abbreviation JSObj := (gmap string JSValue).

(** ** Numbers *)

Module Math.

(** [Math.round]: the nearest integer, halves going up.  The source
    computes in doubles, the model in [Q]: the two agree where the
    arguments are multiples of one half far below 2^53 (or quotients by
    1024 of lengths of buffers). *)
Definition round (x : Q) : Z := Qfloor (x + (1 # 2)).

End Math.

(** [Number.MAX_SAFE_INTEGER] and [Number.isSafeInteger] on an integer: up
    to here every integer is a double of its own and prints as its
    decimal digits. *)
Definition MAX_SAFE_INTEGER : Z := 2 ^ 53 - 1.

Definition isSafeInteger (n : Z) : bool := Z.abs n <=? MAX_SAFE_INTEGER.

(** ** Strings

    A JavaScript string is modelled by a Rocq [string], read as a sequence
    of code units below 256 (the Latin-1 range). *)

Module JSStr.

Definition code (c : ascii) : Z := Z.of_N (N_of_ascii c).

(** White space and line terminators, as [String.prototype.trim] and
    [parseInt] strip them: TAB, LF, VT, FF, CR, SP and NBSP. *)
Definition is_white_space (c : ascii) : bool :=
  let n := code c in
  ((9 <=? n) && (n <=? 13)) || (n =? 32) || (n =? 160).

Fixpoint trimStart (s : string) : string :=
  match s with
  | String c s' => if is_white_space c then trimStart s' else s
  | EmptyString => EmptyString
  end.

Definition trimEnd (s : string) : string :=
  String.rev (trimStart (String.rev s)).

Definition trim (s : string) : string := trimEnd (trimStart s).

(** [toLowerCase] of one code unit: A-Z and the Latin-1 capitals
    (all of 0xC0-0xDE but the multiplication sign) move up by 32. *)
Definition toLowerCase_char (c : ascii) : ascii :=
  let n := code c in
  if ((65 <=? n) && (n <=? 90))
     || ((192 <=? n) && (n <=? 222) && negb (n =? 215))
  then ascii_of_N (Z.to_N (n + 32)) else c.

Fixpoint toLowerCase (s : string) : string :=
  match s with
  | String c s' => String (toLowerCase_char c) (toLowerCase s')
  | EmptyString => EmptyString
  end.

(** Comparison without regard to the case of the letters A-Z. *)
Definition fold_case (c : ascii) : ascii :=
  let n := code c in
  if (65 <=? n) && (n <=? 90) then ascii_of_N (Z.to_N (n + 32)) else c.

Fixpoint equal_ignoring_case (s t : string) : bool :=
  match s, t with
  | EmptyString, EmptyString => true
  | String a s', String b t' =>
      Ascii.eqb (fold_case a) (fold_case b) && equal_ignoring_case s' t'
  | _, _ => false
  end.

Definition is_lower_letter (c : ascii) : bool :=
  (97 <=? code c) && (code c <=? 122).

Fixpoint all_lower_letters (s : string) : bool :=
  match s with
  | String c s' => is_lower_letter c && all_lower_letters s'
  | EmptyString => true
  end.

(** The value of a digit of [parseInt], for radixes up to 36. *)
Definition digit_value (c : ascii) : option Z :=
  let n := code c in
  if (48 <=? n) && (n <=? 57) then Some (n - 48)
  else if (97 <=? n) && (n <=? 122) then Some (n - 87)
  else if (65 <=? n) && (n <=? 90) then Some (n - 55)
  else None.

(** The longest prefix of digits of the radix; [acc] is [None] as long as
    no digit was read. *)
Fixpoint parse_digits (radix : Z) (acc : option Z) (s : string) : option Z :=
  match s with
  | String c s' =>
      match digit_value c with
      | Some d =>
          if d <? radix
          then parse_digits radix (Some (from_option id 0 acc * radix + d)) s'
          else acc
      | None => acc
      end
  | EmptyString => acc
  end.

(** [parseInt(s)] without a radix argument; [None] is NaN. *)
Definition parseInt (s : string) : option Z :=
  let s1 := trimStart s in
  let '(sign, s2) :=
    match s1 with
    | String "-"%char r => (-1, r)
    | String "+"%char r => (1, r)
    | _ => (1, s1)
    end in
  let '(radix, s3) :=
    match s2 with
    | String "0"%char (String x r) =>
        if (Ascii.eqb x "x" || Ascii.eqb x "X")%char then (16, r) else (10, s2)
    | _ => (10, s2)
    end in
  (λ n, sign * n) <$> parse_digits radix None s3.

End JSStr.

(** [ToString] of a value, as a template literal and [parseInt] apply it.
    For a number it gives the decimal digits of the integer, which is what
    JavaScript prints for a safe integer ([isSafeInteger]); above 2^53
    JavaScript prints the shortest digits that read back as the same
    double, and from 10^21 on it prints an exponent.  What is stated below
    about the text of a number is stated for safe integers. *)
Definition ToString (v : JSValue) : string :=
  match v with
  | JSUndefined => "undefined"
  | JSNull => "null"
  | JSBool true => "true"
  | JSBool false => "false"
  | JSNumber n => pretty n
  | JSNaN => "NaN"
  | JSString s => s
  | JSObject _ => "[object Object]"
  end.

(** [o.k]: a missing property reads as [undefined]. *)
Definition prop (o : JSObj) (k : string) : JSValue := default JSUndefined (o !! k).

(** [v === 'text'] *)
Definition is_string (v : JSValue) (text : string) : bool :=
  match v with
  | JSString s => String.eqb s text
  | _ => false
  end.

(** [{...a, ...b}]: the properties of [b] win. *)
Definition spread (a b : JSObj) : JSObj := b ∪ a.

(** ** utils.js *)

Module Utils.

(** [generateJobId(seed, dimension)]; [timestamp] is what [Date.now()]
    returns inside the call. *)
Definition generateJobId (seed : JSValue) (dimension : string) (timestamp : Z) : string :=
  "seed-" +:+ ToString seed +:+ "-" +:+ dimension +:+ "-" +:+ pretty timestamp.

Definition isValidSeed (seed : JSValue) : bool :=
  match seed with
  | JSString s => (0 <? String.length (JSStr.trim s))%nat
  | JSNumber _ => true
  | _ => false
  end.

Definition validDimensions : list string := ["overworld"; "nether"; "end"].

(** [isValidDimension(dimension)].  [dimension?.toLowerCase()] is
    [undefined] for [undefined] and [null], and a TypeError ([None]) for a
    value that has no [toLowerCase] method. *)
Definition isValidDimension (dimension : JSValue) : option bool :=
  match dimension with
  | JSUndefined | JSNull => Some false
  | JSString s => Some (bool_decide (JSStr.toLowerCase s ∈ validDimensions))
  | _ => None
  end.

(** [normalizeDimension(dimension)]; the empty string is falsy. *)
Definition normalizeDimension (dimension : JSValue) : option string :=
  match dimension with
  | JSUndefined | JSNull => Some "overworld"
  | JSString s =>
      let lowered := JSStr.toLowerCase s in
      Some (if String.eqb lowered "" then "overworld" else lowered)
  | _ => None
  end.

(** [isValidSize(size)]: [parseInt] first turns its argument into a
    string. *)
Definition isValidSize (size : JSValue) : bool :=
  match JSStr.parseInt (ToString size) with
  | Some numSize => (2 <=? numSize) && (numSize <=? 16)
  | None => false
  end.

(** [createErrorResponse(error, message, jobId = null, retryable = false)] *)
Definition createErrorResponse (error message : string)
    (jobId : JSValue) (retryable : bool) : JSObj :=
  {[ "success" := JSBool false;
     "error" := JSString error;
     "message" := JSString message;
     "jobId" := jobId;
     "retryable" := JSBool retryable ]}.

(** [createSuccessResponse(data)] *)
Definition createSuccessResponse (data : JSObj) : JSObj :=
  spread {[ "success" := JSBool true ]} data.

End Utils.

(** ** The runtime

    What the code reads from its environment besides its arguments:
    [process.env], and the two directions of [Date]: the text of
    [new Date(ms).toISOString()] and the instant of
    [new Date(text).getTime()] ([None] for NaN).  Clock readings themselves
    are inputs of the calls that make them. *)
Record Runtime : Type := mkRuntime {
  env : gmap string string;
  toISOString : Z → string;
  parseDate : string → option Z
}.

(** [a || b] on an optional string: missing and empty are falsy. *)
Definition or_else (a : option string) (b : string) : string :=
  match a with
  | Some s => if String.eqb s "" then b else s
  | None => b
  end.

(** ** storage.js *)

Module Storage.

Definition getImageUrl (rt : Runtime) (filename : string) : string :=
  let baseUrl :=
    or_else (env rt !! "BASE_URL")
            ("http://localhost:" +:+ or_else (env rt !! "PORT") "3001") in
  baseUrl +:+ "/generated-maps/" +:+ filename.

End Storage.

(** ** screenshot.js *)

Record CropParams : Type := mkCrop {
  left : Z;
  top : Z;
  width : Z;
  height : Z
}.

(** What the browser session and the image pipeline did, seen from
    [generateMap]: an exception somewhere inside its [try] block (launch,
    navigation, capture, sharp, file write), or a processed image of
    [processedLength] bytes, with the clock readings taken for the file name
    and for [generatedAt]. *)
Inductive RenderOutcome : Type :=
| Thrown (message : string)
| Captured (processedLength : Z) (savedAt generatedAt : Z).

(** The status [generateMap] reports for an outcome, in both revisions. *)
Definition outcome_status (outcome : RenderOutcome) : string :=
  match outcome with
  | Captured _ _ _ => "ready"
  | Thrown _ => "failed"
  end.

(** The object returned from the [catch] block of [generateMap], the same
    in both revisions. *)
Definition generateMap_failure (jobId : string) (message : string) : JSObj :=
  {[ "success" := JSBool false;
     "jobId" := JSString jobId;
     "status" := JSString "failed";
     "error" := JSString "GENERATION_FAILED";
     "message" := JSString ("Failed to generate map: " +:+ message);
     "retryable" := JSBool true ]}.

(** The first revision: 8k world size only. *)
Module Screenshot8k.

(** [processImage(screenshotBuffer, dimension, jobId)] up to the call of
    sharp: the crop rectangle and the final size. *)
Definition processImage_crop (dimension : string) : CropParams * Z :=
  if String.eqb dimension "nether" then
    (mkCrop 720 120 2000 2000, 1000)
  else
    (mkCrop 1220 620 1000 1000, 1000).

(** [generateMap(seed, dimension, jobId)]: the value its promise resolves
    with. *)
Definition generateMap (rt : Runtime) (seed : JSValue) (dimension jobId : string)
    (outcome : RenderOutcome) : JSObj :=
  match outcome with
  | Captured processedLength savedAt generatedAt =>
      let filename :=
        "seed-" +:+ ToString seed +:+ "-" +:+ dimension +:+ "-"
        +:+ pretty savedAt +:+ ".png" in
      let imageUrl := Storage.getImageUrl rt filename in
      {[ "success" := JSBool true;
         "jobId" := JSString jobId;
         "status" := JSString "ready";
         "imageUrl" := JSString imageUrl;
         "filename" := JSString filename;
         "metadata" := JSObject
           {[ "seed" := seed;
              "dimension" := JSString dimension;
              "generatedAt" := JSString (toISOString rt generatedAt);
              "fileSize" := JSString
                (pretty (Math.round (inject_Z processedLength / 1024)) +:+ "KB");
              "dimensions" := JSString "1000x1000" ]} ]}
  | Thrown message => generateMap_failure jobId message
  end.

End Screenshot8k.

(** The second revision: a size from 2 to 16. *)
Module Screenshot.

(** The sizes for which the doubles of the source are followed exactly:
    below 2^40 in magnitude, [size * 125] and [(16 - size) * 62.5] are
    multiples of one half far below 2^53, so that no product, sum or
    [Math.round] of [processImage] rounds off.  (From about 7.2 * 10^13 on
    the products of the source do round off.) *)
Definition exact_size (size : Z) : bool := Z.abs size <=? 2 ^ 40.

(** [processImage(screenshotBuffer, dimension, jobId, size = 8)] up to the
    call of sharp.  [dimension] is only logged.  The arithmetic is that of
    the source for every size with [exact_size]. *)
Definition processImage_crop (dimension : string) (size : Z) : CropParams * Z :=
  let left := Math.round (720 + inject_Z (16 - size) * (125 # 2)) in
  let top := Math.round (120 + inject_Z (16 - size) * (125 # 2)) in
  let width := Math.round (inject_Z size * 125) in
  let height := Math.round (inject_Z size * 125) in
  let cropParams := mkCrop left top width height in
  let finalSize := width in
  (cropParams, finalSize).

(** [generateMap(seed, dimension, jobId, size = 8, debug = false)] with
    [debug] off, as every caller leaves it: the value its promise resolves
    with. *)
Definition generateMap (rt : Runtime) (seed : JSValue) (dimension jobId : string)
    (size : Z) (outcome : RenderOutcome) : JSObj :=
  match outcome with
  | Captured processedLength savedAt generatedAt =>
      let filename :=
        "seed-" +:+ ToString seed +:+ "-" +:+ dimension +:+ "-"
        +:+ pretty size +:+ "k-" +:+ pretty savedAt +:+ ".png" in
      let imageUrl := Storage.getImageUrl rt filename in
      let side := pretty (Math.round (inject_Z size * 125)) in
      {[ "success" := JSBool true;
         "jobId" := JSString jobId;
         "status" := JSString "ready";
         "imageUrl" := JSString imageUrl;
         "filename" := JSString filename;
         "metadata" := JSObject
           {[ "seed" := seed;
              "dimension" := JSString dimension;
              "size" := JSString (pretty size +:+ "k");
              "generatedAt" := JSString (toISOString rt generatedAt);
              "fileSize" := JSString
                (pretty (Math.round (inject_Z processedLength / 1024)) +:+ "KB");
              "dimensions" := JSString (side +:+ "x" +:+ side) ]} ]}
  | Thrown message => generateMap_failure jobId message
  end.

End Screenshot.

(** ** server.js *)

Module Server.

(** [res.status(code).json(body)]; [res.json(body)] answers 200. *)
Record Response : Type := mkResponse {
  statusCode : Z;
  json : JSObj
}.

(** A call of [generateMap] whose promise has not settled yet, with what its
    two completion handlers captured. *)
Record Pending : Type := mkPending {
  p_jobId : string;
  p_seed : JSValue;
  p_dimension : string
}.

(** The module-level variables [jobs] and [activeJobs], and the promises in
    flight. *)
Record State : Type := mkState {
  jobs : gmap string JSObj;
  activeJobs : Z;
  inFlight : list Pending
}.

Definition init : State := mkState ∅ 0 [].

(** Which revision of screenshot.js the server imports. *)
Inductive Revision : Type := Rev8k | RevSized.

(** JavaScript truthiness. *)
Definition truthy (v : JSValue) : bool :=
  match v with
  | JSUndefined | JSNull | JSNaN => false
  | JSBool b => b
  | JSNumber n => negb (n =? 0)
  | JSString s => negb (String.eqb s "")
  | JSObject _ => true
  end.

(** [{...v}]: only an object contributes properties here. *)
Definition own_props (v : JSValue) : JSObj :=
  match v with
  | JSObject fields => fields
  | _ => ∅
  end.

(** [new Date(v).getTime()], [None] for NaN. *)
Definition getTime (rt : Runtime) (v : JSValue) : option Z :=
  match v with
  | JSString s => parseDate rt s
  | JSNumber n => Some n
  | JSNull => Some 0
  | JSBool b => Some (if b then 1 else 0)
  | JSUndefined | JSNaN => None
  | JSObject _ => parseDate rt "[object Object]"
  end.

Section Handlers.

Context (rt : Runtime) (screenshot : Revision).

(** [parseInt(process.env.MAX_CONCURRENT_JOBS) || 3] *)
Definition MAX_CONCURRENT_JOBS : Z :=
  match env rt !! "MAX_CONCURRENT_JOBS" ≫= JSStr.parseInt with
  | Some n => if n =? 0 then 3 else n
  | None => 3
  end.

(** The call [generateMap(seed, normalizedDimension, jobId)] of the handler:
    the size-parameterized revision runs with its default size 8. *)
Definition generateMap (p : Pending) (outcome : RenderOutcome) : JSObj :=
  match screenshot with
  | Rev8k =>
      Screenshot8k.generateMap rt (p_seed p) (p_dimension p) (p_jobId p) outcome
  | RevSized =>
      Screenshot.generateMap rt (p_seed p) (p_dimension p) (p_jobId p) 8 outcome
  end.

(** [const { dimension = 'overworld' } = req.body]: the default replaces a
    missing or [undefined] property only. *)
Definition requested_dimension (body : JSObj) : JSValue :=
  match prop body "dimension" with
  | JSUndefined => JSString "overworld"
  | v => v
  end.

(** [app.post('/api/generate', ...)] up to its response.  [now] is the
    reading of [Date.now()] in [generateJobId], [created] the one of
    [new Date()] for [createdAt].  A TypeError lands in the handler's
    [catch] and answers 500. *)
Definition post_generate (body : JSObj) (now created : Z) (st : State)
    : Response * State :=
  let seed := prop body "seed" in
  let dimension := requested_dimension body in
  let server_error :=
    mkResponse 500
      (Utils.createErrorResponse "SERVER_ERROR" "Internal server error"
         JSNull false) in
  if negb (Utils.isValidSeed seed) then
    (mkResponse 400
       (Utils.createErrorResponse "INVALID_SEED"
          "Seed is required and must be a valid string or number" JSNull false),
     st)
  else
    match Utils.isValidDimension dimension with
    | None => (server_error, st)
    | Some false =>
        (mkResponse 400
           (Utils.createErrorResponse "INVALID_DIMENSION"
              "Dimension must be one of: overworld, nether, end" JSNull false),
         st)
    | Some true =>
        if MAX_CONCURRENT_JOBS <=? activeJobs st then
          (mkResponse 429
             (Utils.createErrorResponse "TOO_MANY_JOBS"
                ("Maximum " +:+ pretty MAX_CONCURRENT_JOBS
                 +:+ " concurrent jobs allowed") JSNull false),
           st)
        else
          match Utils.normalizeDimension dimension with
          | None => (server_error, st)
          | Some normalizedDimension =>
              let jobId := Utils.generateJobId seed normalizedDimension now in
              let record : JSObj :=
                {[ "status" := JSString "processing";
                   "seed" := seed;
                   "dimension" := JSString normalizedDimension;
                   "createdAt" := JSString (toISOString rt created);
                   "progress" := JSString "Starting map generation..." ]} in
              (mkResponse 200
                 (Utils.createSuccessResponse
                    {[ "jobId" := JSString jobId;
                       "status" := JSString "processing";
                       "estimatedTime" := JSString "30-60 seconds" ]}),
               mkState (<[jobId := record]> (jobs st))
                       (activeJobs st + 1)
                       (inFlight st ++ [mkPending jobId seed normalizedDimension]))
          end
    end.

(** A request that passes both input checks of the handler. *)
Definition valid_request (body : JSObj) : bool :=
  Utils.isValidSeed (prop body "seed")
  && bool_decide (Utils.isValidDimension (requested_dimension body) = Some true).

(** [...jobs.get(jobId)]: nothing when the job is gone. *)
Definition stored (st : State) (jobId : string) : JSObj :=
  default ∅ (jobs st !! jobId).

(** The handler passed to [.then]. *)
Definition on_fulfilled (jobId : string) (result : JSObj) (completed : Z)
    (st : State) : State :=
  mkState
    (<[jobId :=
         <["completedAt" := JSString (toISOString rt completed)]>
           (spread (stored st jobId) result)]> (jobs st))
    (activeJobs st - 1)
    (inFlight st).

(** The handler passed to [.catch]; [message] is [error.message]. *)
Definition on_rejected (jobId : string) (message : string) (completed : Z)
    (st : State) : State :=
  mkState
    (<[jobId :=
         spread (stored st jobId)
           {[ "status" := JSString "failed";
              "error" := JSString "GENERATION_FAILED";
              "message" := JSString message;
              "completedAt" := JSString (toISOString rt completed) ]}]> (jobs st))
    (activeJobs st - 1)
    (inFlight st).

(** The promise at position [k] leaves the set of promises in flight. *)
Definition settle (k : nat) (st : State) : State :=
  mkState (jobs st) (activeJobs st) (delete k (inFlight st)).

(** [app.get('/api/status/:jobId', ...)].  [file] is what the file system
    answers for a ready job's file: [Some (sizeFormatted, created)] when
    [imageExists] and [getImageStats] both succeed.  The handler's two
    awaits are taken as one step. *)
Definition get_status (jobId : string) (file : option (string * JSValue))
    (st : State) : Response * State :=
  match jobs st !! jobId with
  | None =>
      (mkResponse 404
         (Utils.createErrorResponse "JOB_NOT_FOUND" "Job not found" JSNull false),
       st)
  | Some job0 =>
      let status := prop job0 "status" in
      let job :=
        if is_string status "ready" && truthy (prop job0 "filename") then
          match file with
          | Some (sizeFormatted, created) =>
              <["metadata" :=
                  JSObject
                    (spread (own_props (prop job0 "metadata"))
                       {[ "fileSize" := JSString sizeFormatted;
                          "created" := created ]})]> job0
          | None => job0
          end
        else job0 in
      let ready : JSObj :=
        if is_string status "ready"
        then {[ "imageUrl" := prop job "imageUrl";
                "metadata" := prop job "metadata" ]}
        else ∅ in
      let processing : JSObj :=
        if is_string status "processing"
        then {[ "progress" := prop job "progress" ]}
        else ∅ in
      let failed : JSObj :=
        if is_string status "failed"
        then {[ "error" := prop job "error";
                "message" := prop job "message";
                "retryable" := prop job "retryable" ]}
        else ∅ in
      (mkResponse 200
         (Utils.createSuccessResponse
            (spread (spread (spread
               {[ "jobId" := JSString jobId; "status" := status ]}
               ready) processing) failed)),
       mkState (<[jobId := job]> (jobs st)) (activeJobs st) (inFlight st))
  end.

(** The test of the cleanup loop: older than 24 hours and terminal. *)
Definition expired (now : Z) (job : JSObj) : bool :=
  match getTime rt (prop job "createdAt") with
  | Some createdAt =>
      (24 * 60 * 60 * 1000 <? now - createdAt)
      && (is_string (prop job "status") "ready"
          || is_string (prop job "status") "failed")
  | None => false
  end.

(** [app.post('/api/cleanup', ...)] *)
Definition post_cleanup (now : Z) (st : State) : Response * State :=
  let remaining := filter (λ entry, expired now entry.2 = false) (jobs st) in
  let cleanedCount := Z.of_nat (size (jobs st)) - Z.of_nat (size remaining) in
  (mkResponse 200
     (Utils.createSuccessResponse
        {[ "message" := JSString "Cleanup completed";
           "cleanedCount" := JSNumber cleanedCount;
           "remainingJobs" := JSNumber (Z.of_nat (size remaining)) ]}),
   mkState remaining (activeJobs st) (inFlight st)).

(** What can happen to the server, one event-loop turn at a time. *)
Inductive Event : Type :=
| PostGenerate (body : JSObj) (now created : Z)
| Fulfil (k : nat) (outcome : RenderOutcome) (completed : Z)
| Reject (k : nat) (message : string) (completed : Z)
| GetStatus (jobId : string) (file : option (string * JSValue))
| PostCleanup (now : Z).

(** One turn.  A promise settles only while it is in flight, and settles
    once: [Fulfil] and [Reject] of a position that holds no promise are not
    enabled. *)
Definition exec (ev : Event) (st : State) : option State :=
  match ev with
  | PostGenerate body now created => Some (post_generate body now created st).2
  | Fulfil k outcome completed =>
      p ← inFlight st !! k;
      Some (on_fulfilled (p_jobId p) (generateMap p outcome) completed (settle k st))
  | Reject k message completed =>
      p ← inFlight st !! k;
      Some (on_rejected (p_jobId p) message completed (settle k st))
  | GetStatus jobId file => Some (get_status jobId file st).2
  | PostCleanup now => Some (post_cleanup now st).2
  end.

(** The settling of a promise, as opposed to a request. *)
Definition is_completion (ev : Event) : bool :=
  match ev with
  | Fulfil _ _ _ | Reject _ _ _ => true
  | _ => false
  end.

Fixpoint run (evs : list Event) (st : State) : option State :=
  match evs with
  | [] => Some st
  | ev :: evs' => exec ev st ≫= run evs'
  end.

Inductive reachable : State → Prop :=
| reachable_init : reachable init
| reachable_step st ev st' :
    reachable st → exec ev st = Some st' → reachable st'.




(** The invariant of the counter: it is the number of promises in flight,
    and stays at or below the ceiling (a negative ceiling admits nothing,
    and the counter stays 0). *)
Definition counter_inv (st : State) : Prop :=
  activeJobs st = Z.of_nat (length (inFlight st))
  ∧ activeJobs st ≤ Z.max 0 MAX_CONCURRENT_JOBS.

(** [jobs.get(jobId)?.status], [None] when the job is not found. *)
Definition status_of (st : State) (jobId : string) : option JSValue :=
  (λ job, prop job "status") <$> jobs st !! jobId.

(** A request whose job id, if it is admitted, is carried by no record
    yet; any other event. *)
Definition fresh_admission (ev : Event) (st : State) : Prop :=
  match ev with
  | PostGenerate body now created =>
      ∀ jobId,
        prop (json (post_generate body now created st).1) "jobId"
        = JSString jobId →
        jobs st !! jobId = None
  | _ => True
  end.

(** The runs in which no admitted request is given the id of a job on
    record. *)
Inductive reachable_fresh : State → Prop :=
| reachable_fresh_init : reachable_fresh init
| reachable_fresh_step st ev st' :
    reachable_fresh st →
    fresh_admission ev st →
    exec ev st = Some st' →
    reachable_fresh st'.

(** The promises in flight belong to pairwise different jobs, each of them
    on record as [processing]. *)
Definition ids_inv (st : State) : Prop :=
  NoDup (p_jobId <$> inFlight st)
  ∧ ∀ k p, inFlight st !! k = Some p →
      status_of st (p_jobId p) = Some (JSString "processing").

(** The moves of one job's status that the lifecycle allows in one turn. *)
Inductive lifecycle_step : option JSValue → option JSValue → Prop :=
| lifecycle_stay s : lifecycle_step s s
| lifecycle_created :
    lifecycle_step None (Some (JSString "processing"))
| lifecycle_completed s :
    s ∈ ["ready"; "failed"] →
    lifecycle_step (Some (JSString "processing")) (Some (JSString s))
| lifecycle_cleaned s :
    s ∈ ["ready"; "failed"] →
    lifecycle_step (Some (JSString s)) None.

(** The status of a job after a run from the initial state; the outer
    [None] means that the run is not possible. *)
Definition status_after (evs : list Event) (jobId : string)
    : option (option JSValue) :=
  (λ st, status_of st jobId) <$> run evs init.

End Handlers.

End Server.

(** ** screenshot.js: the browser session

    [generateMap] as a program over the calls it awaits.  What each call
    does is given by the world; an exception is its message, the only part
    of it the code reads. *)

Module Pipeline.

Inductive Outcome : Type :=
| Returns (value : Z)
| Throws (message : string).

(** The awaited calls: puppeteer's, sharp's (the whole chain
    [extract.resize.png.toBuffer], returning the length of the buffer),
    [saveImage] of storage.js, and the timers.  [EvaluateVillage] is the
    [page.evaluate] of the script that clicks the Village button. *)
Inductive Call : Type :=
| Launch
| NewPage
| SetViewport (width height : Z)
| Goto (url : string) (timeout : Z)
| Click (selector : string)
| EvaluateVillage
| Sleep (ms : Z)
| TakeScreenshot
| Sharp (crop : CropParams) (finalSize : Z)
| SaveImage (filename : string)
| CloseBrowser.

(** The calls made so far, and whether the variable [browser] is
    assigned. *)
Record Local : Type := mkLocal {
  calls : list Call;
  browser : bool
}.

(** A computation that returns or throws. *)
Definition M (A : Type) : Type := Local → (A + string) * Local.

Definition ret {A} (a : A) : M A := λ l, (inl a, l).

Definition throw {A} (message : string) : M A := λ l, (inr message, l).

Definition bind {A B} (m : M A) (k : A → M B) : M B :=
  λ l, match m l with
       | (inl a, l') => k a l'
       | (inr message, l') => (inr message, l')
       end.

(** [try { body } catch (error) { handler }] *)
Definition try_catch {A} (body : M A) (handler : string → M A) : M A :=
  λ l, match body l with
       | (inl a, l') => (inl a, l')
       | (inr message, l') => handler message l'
       end.

(** [try { body } finally { cleanup }]: the cleanup runs on both exits, and
    an exception of its own replaces the outcome of the body. *)
Definition finally {A} (body : M A) (cleanup : M unit) : M A :=
  λ l, match body l with
       | (outcome, l') =>
           match cleanup l' with
           | (inl _, l'') => (outcome, l'')
           | (inr message, l'') => (inr message, l'')
           end
       end.

#[global] Instance M_ret : MRet M := @ret.
#[global] Instance M_bind : MBind M := λ A B k m, bind m k.

Definition assign_browser : M unit :=
  λ l, (inl tt, mkLocal (calls l) true).

(** The three clock readings of a session: for the name of the original
    screenshot (debug mode), for the name of the image, and for
    [generatedAt]. *)
Record Clock : Type := mkClock {
  originalAt : Z;
  savedAt : Z;
  generatedAt : Z
}.

(** The selectors [button[title=...]] of the two titled buttons, the title
    in double quotes. *)
Definition titled_button (title : string) : string :=
  "button[title=" +:+ String (ascii_of_nat 34) title
  +:+ String (ascii_of_nat 34) "]".

Definition toggle_sidebar_button : string := titled_button "Toggle sidebar".
Definition markers_tab : string := titled_button "Markers".

Definition viewport_width : Z := 3840.
Definition viewport_height : Z := 2160.

(** [https://mcseedmap.net/1.21.5-Java/${seed}/${dimension}], with the zoom
    fragment for every dimension but nether. *)
Definition map_url (seed : JSValue) (dimension : string) : string :=
  if String.eqb dimension "nether"
  then "https://mcseedmap.net/1.21.5-Java/" +:+ ToString seed +:+ "/" +:+ dimension
  else "https://mcseedmap.net/1.21.5-Java/" +:+ ToString seed +:+ "/" +:+ dimension
       +:+ "#l=-3".

Section Session.

Context (world : Call → Outcome).

(** An awaited call: it is made, and returns or throws as the world has
    it. *)
Definition call (c : Call) : M Z :=
  λ l, let l' := mkLocal (calls l ++ [c]) (browser l) in
       match world c with
       | Returns value => (inl value, l')
       | Throws message => (inr message, l')
       end.

(** [await new Promise(resolve => setTimeout(resolve, ms))] *)
Definition sleep (ms : Z) : M unit :=
  λ l, (inl tt, mkLocal (calls l ++ [Sleep ms]) (browser l)).

Definition handleCookieBanner : M unit :=
  try_catch
    (_ ← call (Click "button.fc-cta-manage-options");
     sleep 2000;;
     _ ← call (Click "button.fc-confirm-choices");
     sleep 1000)
    (λ _, ret tt).

Definition toggleSidebar : M unit :=
  try_catch
    (_ ← call (Click toggle_sidebar_button);
     sleep 1000)
    (λ _, ret tt).

Definition configureMarkers : M unit :=
  try_catch
    (_ ← call (Click markers_tab);
     sleep 2000;;
     _ ← call EvaluateVillage;
     sleep 2000)
    (λ _, ret tt).

(** The [finally] block of [generateMap]. *)
Definition close_browser : M unit :=
  λ l, if browser l
       then try_catch (_ ← call CloseBrowser; ret tt) (λ _, ret tt) l
       else (inl tt, l).

(** [processImage] of the size-parameterized revision: its [catch] logs
    and throws the error again. *)
Definition processImage (dimension : string) (size : Z) : M Z :=
  try_catch
    (let '(cropParams, finalSize) := Screenshot.processImage_crop dimension size in
     call (Sharp cropParams finalSize))
    (λ message, throw message).

Definition kilobytes (length : Z) : string :=
  pretty (Math.round (inject_Z length / 1024)) +:+ "KB".

(** [generateMap(seed, dimension, jobId, size = 8, debug = false)] of the
    size-parameterized revision. *)
Definition generateMap (rt : Runtime) (clock : Clock) (seed : JSValue)
    (dimension jobId : string) (size : Z) (debug : bool) : M JSObj :=
  finally
    (try_catch
       (_ ← call Launch;
        assign_browser;;
        _ ← call NewPage;
        _ ← call (SetViewport viewport_width viewport_height);
        _ ← call (Goto (map_url seed dimension) 30000);
        handleCookieBanner;;
        toggleSidebar;;
        configureMarkers;;
        sleep 10000;;
        screenshotLength ← call TakeScreenshot;
        let originalFilename :=
          "seed-" +:+ ToString seed +:+ "-" +:+ dimension +:+ "-"
          +:+ pretty size +:+ "k-original-" +:+ pretty (originalAt clock)
          +:+ ".png" in
        (if debug then _ ← call (SaveImage originalFilename); ret tt else ret tt);;
        processedLength ← processImage dimension size;
        let filename :=
          "seed-" +:+ ToString seed +:+ "-" +:+ dimension +:+ "-"
          +:+ pretty size +:+ "k-" +:+ pretty (savedAt clock) +:+ ".png" in
        _ ← call (SaveImage filename);
        let imageUrl := Storage.getImageUrl rt filename in
        let side := pretty (Math.round (inject_Z size * 125)) in
        let debug_props (props : JSObj) : JSObj := if debug then props else ∅ in
        ret (spread
               (spread
                  {[ "success" := JSBool true;
                     "jobId" := JSString jobId;
                     "status" := JSString "ready";
                     "imageUrl" := JSString imageUrl;
                     "filename" := JSString filename ]}
                  (debug_props
                     {[ "originalImageUrl" :=
                          JSString (Storage.getImageUrl rt originalFilename);
                        "originalFilename" := JSString originalFilename ]}))
               {[ "metadata" := JSObject
                    (spread
                       (spread
                          {[ "seed" := seed;
                             "dimension" := JSString dimension;
                             "size" := JSString (pretty size +:+ "k");
                             "generatedAt" :=
                               JSString (toISOString rt (generatedAt clock));
                             "fileSize" := JSString (kilobytes processedLength) ]}
                          (debug_props
                             {[ "originalFileSize" :=
                                  JSString (kilobytes screenshotLength) ]}))
                       {[ "dimensions" := JSString (side +:+ "x" +:+ side) ]}) ]}))
       (λ message, ret (generateMap_failure jobId message)))
    close_browser.

(** [processImage] of the 8k-only revision. *)
Definition processImage8k (dimension : string) : M Z :=
  try_catch
    (let '(cropParams, finalSize) := Screenshot8k.processImage_crop dimension in
     call (Sharp cropParams finalSize))
    (λ message, throw message).

(** [generateMap(seed, dimension, jobId)] of the 8k-only revision. *)
Definition generateMap8k (rt : Runtime) (clock : Clock) (seed : JSValue)
    (dimension jobId : string) : M JSObj :=
  finally
    (try_catch
       (_ ← call Launch;
        assign_browser;;
        _ ← call NewPage;
        _ ← call (SetViewport viewport_width viewport_height);
        _ ← call (Goto (map_url seed dimension) 30000);
        handleCookieBanner;;
        toggleSidebar;;
        configureMarkers;;
        sleep 5000;;
        _ ← call TakeScreenshot;
        processedLength ← processImage8k dimension;
        let filename :=
          "seed-" +:+ ToString seed +:+ "-" +:+ dimension +:+ "-"
          +:+ pretty (savedAt clock) +:+ ".png" in
        _ ← call (SaveImage filename);
        let imageUrl := Storage.getImageUrl rt filename in
        ret {[ "success" := JSBool true;
               "jobId" := JSString jobId;
               "status" := JSString "ready";
               "imageUrl" := JSString imageUrl;
               "filename" := JSString filename;
               "metadata" := JSObject
                 {[ "seed" := seed;
                    "dimension" := JSString dimension;
                    "generatedAt" :=
                      JSString (toISOString rt (generatedAt clock));
                    "fileSize" := JSString (kilobytes processedLength);
                    "dimensions" := JSString "1000x1000" ]} ]})
       (λ message, ret (generateMap_failure jobId message)))
    close_browser.

(** The promise of [generateMap]: what it settles with, and the calls the
    session made. *)
Definition start {A} (m : M A) : (A + string) * list Call :=
  let '(outcome, l) := m (mkLocal [] false) in (outcome, calls l).


End Session.

(** The calls whose failure ends the session: all but the clicks, the
    page script and the closing of the browser. *)
Definition fatal (c : Call) : bool :=
  match c with
  | Click _ | EvaluateVillage | CloseBrowser | Sleep _ => false
  | _ => true
  end.

Definition is_close (c : Call) : bool :=
  match c with CloseBrowser => true | _ => false end.

Definition is_save (c : Call) : bool :=
  match c with SaveImage _ => true | _ => false end.

(** A call on the page: it needs the page to have been opened. *)
Definition is_page_call (c : Call) : bool :=
  match c with
  | Click _ | EvaluateVillage | TakeScreenshot => true
  | _ => false
  end.

(** The calls of the best-effort stages. *)
Definition best_effort (c : Call) : bool :=
  match c with
  | Click _ | EvaluateVillage | Sleep _ => true
  | _ => false
  end.

(** How many of the calls are of a kind. *)
Fixpoint count (kind : Call → bool) (cs : list Call) : nat :=
  match cs with
  | [] => 0
  | c :: cs' => (if kind c then 1 else 0) + count kind cs'
  end.

(** The setup of a session: what has to succeed before the page is
    there. *)
Definition setup_calls (seed : JSValue) (dimension : string) : list Call :=
  [Launch; NewPage; SetViewport viewport_width viewport_height;
   Goto (map_url seed dimension) 30000].

(** The world in which every click, the page script and the closing of the
    browser succeed, and the other calls do what they do in [world]. *)
Definition calm (world : Call → Outcome) : Call → Outcome :=
  λ c, if fatal c then world c else Returns 0.

(** The message of the first call of the list that throws. *)
Fixpoint first_failure (world : Call → Outcome) (cs : list Call) : option string :=
  match cs with
  | [] => None
  | c :: cs' =>
      match world c with
      | Throws message => Some message
      | Returns _ => first_failure world cs'
      end
  end.

(** What a session comes to, seen from outside: the first failure among
    its setup, capture, processing and saving calls, or the length of the
    processed image.  [process] and [save] are the calls of sharp and of
    [saveImage] for the revision at hand. *)
Definition session_outcome (world : Call → Outcome) (clock : Clock)
    (seed : JSValue) (dimension : string) (process save : Call) : RenderOutcome :=
  match first_failure world
          [Launch; NewPage; SetViewport viewport_width viewport_height;
           Goto (map_url seed dimension) 30000; TakeScreenshot; process; save]
  with
  | Some message => Thrown message
  | None =>
      match world process with
      | Returns processedLength =>
          Captured processedLength (savedAt clock) (generatedAt clock)
      | Throws message => Thrown message
      end
  end.

End Pipeline.

(** ** Rectangles *)

(** The rectangle lies inside a frame of the given width and height and is
    not empty: what sharp's [extract] asks for. *)
Definition inside (crop : CropParams) (frame_width frame_height : Z) : Prop :=
  0 ≤ left crop ∧ 0 ≤ top crop ∧ 0 < width crop ∧ 0 < height crop
  ∧ left crop + width crop ≤ frame_width
  ∧ top crop + height crop ≤ frame_height.

(** One rectangle within another. *)
Definition within (inner outer : CropParams) : Prop :=
  left outer ≤ left inner ∧ top outer ≤ top inner
  ∧ left inner + width inner ≤ left outer + width outer
  ∧ top inner + height inner ≤ top outer + height outer.

(** ** Predicates on strings used below *)

Module Text.

(** Every code unit of the string is white space. *)
Fixpoint all_white (s : string) : bool :=
  match s with
  | String c s' => JSStr.is_white_space c && all_white s'
  | EmptyString => true
  end.

(** The string has no hyphen. *)
Fixpoint no_dash (s : string) : bool :=
  match s with
  | String c s' => negb (Ascii.eqb c "-") && no_dash s'
  | EmptyString => true
  end.

(** [parseInt] stops reading a decimal number here: at the end, or at a
    code unit that is no decimal digit. *)
Definition stops_decimal (rest : string) : bool :=
  match rest with
  | String c _ =>
      match JSStr.digit_value c with
      | Some d => 10 <=? d
      | None => true
      end
  | EmptyString => true
  end.

End Text.

(** ** server.js: health and statistics *)

Module Monitor.

Section Endpoints.

Context (rt : Runtime).

(** [Array.from(jobs.values()).filter(job => job.status === status).length]:
    the number of records with that status. *)
Definition count_status (st : Server.State) (status : string) : Z :=
  Z.of_nat
    (size (filter (λ entry : string * JSObj,
                     is_string (prop entry.2 "status") status = true)
             (Server.jobs st))).

(** [app.get('/api/health', ...)]; [now] is the reading of [new Date()]. *)
Definition get_health (now : Z) (st : Server.State) : Server.Response :=
  Server.mkResponse 200
    (Utils.createSuccessResponse
       {[ "status" := JSString "healthy";
          "timestamp" := JSString (toISOString rt now);
          "version" := JSString "1.0.0";
          "activeJobs" := JSNumber (Server.activeJobs st);
          "maxConcurrentJobs" := JSNumber (Server.MAX_CONCURRENT_JOBS rt) ]}).

(** [app.get('/api/stats', ...)] *)
Definition get_stats (st : Server.State) : Server.Response :=
  Server.mkResponse 200
    (Utils.createSuccessResponse
       {[ "totalJobs" := JSNumber (Z.of_nat (size (Server.jobs st)));
          "completedJobs" := JSNumber (count_status st "ready");
          "failedJobs" := JSNumber (count_status st "failed");
          "processingJobs" := JSNumber (count_status st "processing");
          "activeJobs" := JSNumber (Server.activeJobs st);
          "maxConcurrentJobs" := JSNumber (Server.MAX_CONCURRENT_JOBS rt) ]}).

End Endpoints.

(** Every record has one of the three statuses. *)
Definition statuses_known (st : Server.State) : Prop :=
  ∀ jobId job, Server.jobs st !! jobId = Some job →
    prop job "status" ∈ JSString <$> ["processing"; "ready"; "failed"].

(** Every record that is [processing] has a promise in flight. *)
Definition processing_in_flight (st : Server.State) : Prop :=
  ∀ jobId job, Server.jobs st !! jobId = Some job →
    prop job "status" = JSString "processing" →
    jobId ∈ Server.p_jobId <$> Server.inFlight st.

End Monitor.

(** ** storage.js: listing the images

    The file system is what [fs.readdir] and [fs.stat] answer.
    [formatFileSize] of utils.js works with floating-point logarithms; the
    text it gives for a size is taken as given. *)

Module Listing.

(** What [fs.stat] returns, as far as the code reads it. *)
Record FileStats : Type := mkFileStats {
  size : Z;
  birthtime : JSValue;
  mtime : JSValue
}.

(** [entries]: the names [fs.readdir] returns, [None] when
    [ensureDirectoryExists] or [fs.readdir] throws.  [stat]: the answer of
    [fs.stat] for a name of the directory, [None] when it throws. *)
Record Disk : Type := mkDisk {
  entries : option (list string);
  stat : string → option FileStats
}.

(** [s.endsWith(suffix)] *)
Definition endsWith (s suffix : string) : bool :=
  String.prefix (String.rev suffix) (String.rev s).

(** The test of the filter of [listImages]. *)
Definition is_image (file : string) : bool :=
  let lowered := JSStr.toLowerCase file in
  endsWith lowered ".png" || endsWith lowered ".jpg" || endsWith lowered ".jpeg".

Section WithFormat.

Context (formatFileSize : Z → string).

(** [getImageStats(filename)]: [None] is [null]. *)
Definition getImageStats (disk : Disk) (filename : string) : option JSObj :=
  match stat disk filename with
  | Some stats =>
      Some {[ "size" := JSNumber (size stats);
              "sizeFormatted" := JSString (formatFileSize (size stats));
              "created" := birthtime stats;
              "modified" := mtime stats ]}
  | None => None
  end.

(** [listImages()] *)
Definition listImages (disk : Disk) : list JSObj :=
  match entries disk with
  | Some files =>
      let imageFiles := List.filter is_image files in
      map (λ filename,
             spread {[ "filename" := JSString filename ]}
                    (default ∅ (getImageStats disk filename)))
          imageFiles
  | None => []
  end.

(** The object [getStorageInfo] returns. *)
Record StorageInfo : Type := mkStorageInfo {
  totalFiles : Z;
  totalSizeBytes : Z;
  totalSizeFormatted : string;
  images : list JSObj
}.

(** [img.size || 0] *)
Definition size_or_zero (img : JSObj) : Z :=
  match prop img "size" with
  | JSNumber n => n
  | _ => 0
  end.

(** [getStorageInfo()] *)
Definition getStorageInfo (disk : Disk) : StorageInfo :=
  let images := listImages disk in
  let totalSize := fold_left (λ sum img, sum + size_or_zero img) images 0 in
  let fileCount := Z.of_nat (length images) in
  mkStorageInfo fileCount totalSize (formatFileSize totalSize) images.

End WithFormat.

End Listing.

(** ** Sample inputs *)

Module Samples.

(** A runtime with an empty [process.env], so that the ceiling is 3.  The
    texts of dates play no role in what follows: the instant in decimal
    stands for them. *)
Definition runtime : Runtime := mkRuntime ∅ pretty (λ _, None).

(** The same with [MAX_CONCURRENT_JOBS=1]. *)
Definition single_slot : Runtime :=
  mkRuntime {[ "MAX_CONCURRENT_JOBS" := "1" ]} pretty (λ _, None).

(** [{ "seed": "12345", "dimension": "overworld" }] *)
Definition body : JSObj :=
  {[ "seed" := JSString "12345"; "dimension" := JSString "overworld" ]}.

(** [{ "seed": "12345", "dimension": "overworld", "size": 17 }] *)
Definition body_size_17 : JSObj := <[ "size" := JSNumber 17 ]> body.

(** [{ "seed": "12345" }] *)
Definition body_no_dimension : JSObj := {[ "seed" := JSString "12345" ]}.

(** [{ "seed": 7, "dimension": "NeThEr" }] *)
Definition body_mixed_case : JSObj :=
  {[ "seed" := JSNumber 7; "dimension" := JSString "NeThEr" ]}.

Definition jobId : string := "seed-12345-overworld-1700000000000".

End Samples.

(** * Properties *)

(** ** Sample evaluations *)

Example isValidSize_numbers :
  map (λ n, Utils.isValidSize (JSNumber n)) [1; 2; 8; 16; 17; -3]
  = [false; true; true; true; false; false].
Proof. vm_compute. reflexivity. Qed.

Example isValidSize_strings :
  map (λ s, Utils.isValidSize (JSString s)) ["8"; " 16k"; "0x10"; "17"; "abc"; ""]
  = [true; true; true; false; false; false].
Proof. vm_compute. reflexivity. Qed.

Example generateJobId_12345 :
  Utils.generateJobId (JSString "12345") "overworld" 1700000000000
  = "seed-12345-overworld-1700000000000".
Proof. vm_compute. reflexivity. Qed.

Example crop_15 :
  Screenshot.processImage_crop "end" 15 = (mkCrop 783 183 1875 1875, 1875).
Proof. reflexivity. Qed.

Example round_halves :
  map Math.round [5 # 2; -5 # 2; 7825 # 10; 200 # 1] = [3; -2; 783; 200].
Proof. reflexivity. Qed.

Example isValidSeed_samples :
  map Utils.isValidSeed
    [JSString "12345"; JSString "  "; JSString ""; JSNumber (-7); JSNaN;
     JSUndefined; JSNull; JSBool true]
  = [true; false; false; true; false; false; false; false].
Proof. reflexivity. Qed.

Example isValidDimension_samples :
  map Utils.isValidDimension
    [JSString "NETHER"; JSString "End"; JSString "the_end"; JSString "";
     JSNull; JSNumber 5]
  = [Some true; Some true; Some false; Some false; Some false; None].
Proof. reflexivity. Qed.

Example normalizeDimension_samples :
  map Utils.normalizeDimension [JSString "OverWorld"; JSString ""; JSNull; JSBool true]
  = [Some "overworld"; Some "overworld"; Some "overworld"; None].
Proof. reflexivity. Qed.

Example MAX_CONCURRENT_JOBS_samples :
  map (λ text,
         Server.MAX_CONCURRENT_JOBS
           (mkRuntime {[ "MAX_CONCURRENT_JOBS" := text ]} pretty (λ _, None)))
      ["5"; "0"; "many"; " 12 jobs"; "-2"]
  = [5; 3; 3; 12; -2].
Proof. vm_compute. reflexivity. Qed.

Example dimension_without_toLowerCase_answers_500 :
  Server.statusCode
    (Server.post_generate Samples.runtime
       {[ "seed" := JSString "12345"; "dimension" := JSNumber 5 ]}
       1700000000000 1700000000000 Server.init).1 = 500.
Proof. reflexivity. Qed.

Example second_request_refused_with_one_slot :
  let post := Server.post_generate Samples.single_slot Samples.body 1 1 in
  Server.statusCode (post (post Server.init).2).1 = 429.
Proof. vm_compute. reflexivity. Qed.

(** ** The crop geometry *)

Lemma supported_size_cases (s : Z) :
  2 ≤ s ≤ 16 →
  s ∈ [2; 3; 4; 5; 6; 7; 8; 9; 10; 11; 12; 13; 14; 15; 16].
Proof.
  intros Hs. rewrite !elem_of_cons. lia.
Qed.

(** The size-parameterized crop never looks at the dimension. *)
Lemma processImage_crop_dimension_blind (d d' : string) (s : Z) :
  Screenshot.processImage_crop d s = Screenshot.processImage_crop d' s.
Proof. reflexivity. Qed.

(** C1.  For overworld and end and every size [s] from 2 to 16, the
    size-parameterized [processImage] crops at
    left = round(720 + (16 - s) * 62.5), top = round(120 + (16 - s) * 62.5),
    with width = height = final size = round(s * 125).  In integers that is
    720 (resp. 120) plus the half of 125 * (16 - s) rounded up, and 125 * s.
    At s = 16 the rectangle is the reference anchor (720, 120, 2000 x 2000),
    at s = 2 it is (1595, 995, 250 x 250). *)
Theorem crop_overworld_end_formula (dimension : string) (s : Z) :
  dimension ∈ ["overworld"; "end"] →
  2 ≤ s ≤ 16 →
  ∃ crop outputSize,
    Screenshot.processImage_crop dimension s = (crop, outputSize)
    ∧ left crop = Math.round (720 + inject_Z (16 - s) * (625 # 10))
    ∧ top crop = Math.round (120 + inject_Z (16 - s) * (625 # 10))
    ∧ width crop = Math.round (inject_Z s * 125)
    ∧ height crop = width crop
    ∧ outputSize = width crop
    ∧ left crop = 720 + (125 * (16 - s) + 1) `div` 2
    ∧ top crop = 120 + (125 * (16 - s) + 1) `div` 2
    ∧ width crop = 125 * s
    ∧ (s = 16 → crop = mkCrop 720 120 2000 2000 ∧ outputSize = 2000)
    ∧ (s = 2 → crop = mkCrop 1595 995 250 250 ∧ outputSize = 250).
Proof.
  intros _ Hs%supported_size_cases.
  eexists _, _. split; [reflexivity|].
  rewrite !elem_of_cons, elem_of_nil in Hs.
  repeat (destruct Hs as [->|Hs]); [..|done];
    (repeat split; try (vm_compute; congruence); intros [=]).
Qed.

Lemma crop_overworld_end_formula_witness :
  "overworld" ∈ ["overworld"; "end"] ∧ 2 ≤ 2 ≤ 16
  ∧ Screenshot.processImage_crop "overworld" 2 = (mkCrop 1595 995 250 250, 250).
Proof.
  assert (Hd : "overworld" ∈ ["overworld"; "end"]) by apply list_elem_of_here.
  assert (Hs : 2 ≤ 2 ≤ 16) by lia.
  split; [exact Hd|]. split; [exact Hs|].
  destruct (crop_overworld_end_formula "overworld" 2 Hd Hs)
    as (crop & outputSize & Heq & _ & _ & _ & _ & _ & _ & _ & _ & _ & Hmin).
  destruct (Hmin eq_refl) as [-> ->]. exact Heq.
Defined.

(** In the rationals of the model [round(size * 125)] is [125 * size]. *)
Lemma round_size_125 (size : Z) : Math.round (inject_Z size * 125) = 125 * size.
Proof.
  unfold Math.round, Qfloor, Qplus, Qmult, inject_Z. simpl.
  symmetry. apply (Z.div_unique _ _ _ 1); lia.
Qed.

Lemma processImage_crop_width (d : string) (size : Z) :
  width (Screenshot.processImage_crop d size).1 = 125 * size.
Proof. apply round_size_125. Qed.

(** C2: the code at the failing input.  For nether the 8k-only revision
    crops the fixed rectangle (720, 120, 2000 x 2000) and resizes it to
    1000.  The size-parameterized revision has lost that branch: for nether
    it computes the rectangle of every other dimension, which is
    (1220, 620, 1000 x 1000) at its default size 8 and changes with the
    size, from (1595, 995, 250 x 250) at 2 to (720, 120, 2000 x 2000) at
    16.  Yet both revisions load the same page for nether, without the zoom
    fragment of the other dimensions, into the same viewport: in a session
    where every call succeeds, the calls other than clicks and waits differ
    in the crop handed to sharp and in the file name only. *)
Theorem nether_crop_lost_in_sized_revision :
  let world (_ : Pipeline.Call) := Pipeline.Returns 204800 in
  let clock := Pipeline.mkClock 1700000039000 1700000040000 1700000040000 in
  let seed := JSString "12345" in
  let jobId := "seed-12345-nether-1700000000000" in
  let url := "https://mcseedmap.net/1.21.5-Java/12345/nether" in
  let session8k :=
    Pipeline.start
      (Pipeline.generateMap8k world Samples.runtime clock seed "nether" jobId) in
  let session :=
    Pipeline.start
      (Pipeline.generateMap world Samples.runtime clock seed "nether" jobId
         8 false) in
  Screenshot8k.processImage_crop "nether" = (mkCrop 720 120 2000 2000, 1000)
  ∧ Screenshot.processImage_crop "nether" 8 = (mkCrop 1220 620 1000 1000, 1000)
  ∧ Screenshot.processImage_crop "nether" 2 = (mkCrop 1595 995 250 250, 250)
  ∧ Screenshot.processImage_crop "nether" 16 = (mkCrop 720 120 2000 2000, 2000)
  ∧ (∀ size, Screenshot.processImage_crop "nether" size
             = Screenshot.processImage_crop "overworld" size)
  ∧ List.filter Pipeline.fatal session8k.2
    = [Pipeline.Launch; Pipeline.NewPage; Pipeline.SetViewport 3840 2160;
       Pipeline.Goto url 30000; Pipeline.TakeScreenshot;
       Pipeline.Sharp (mkCrop 720 120 2000 2000) 1000;
       Pipeline.SaveImage "seed-12345-nether-1700000040000.png"]
  ∧ List.filter Pipeline.fatal session.2
    = [Pipeline.Launch; Pipeline.NewPage; Pipeline.SetViewport 3840 2160;
       Pipeline.Goto url 30000; Pipeline.TakeScreenshot;
       Pipeline.Sharp (mkCrop 1220 620 1000 1000) 1000;
       Pipeline.SaveImage "seed-12345-nether-8k-1700000040000.png"].
Proof.
  cbv zeta. repeat split; vm_compute; reflexivity.
Qed.

(** C8.  At size 8 the size-parameterized crop is the crop of the 8k-only
    revision for overworld and end: left 1220, top 620, 1000 x 1000, final
    size 1000; and both revisions of [generateMap] then report the
    dimensions 1000x1000. *)
Theorem crop_size_8_refines_8k (dimension : string) :
  dimension ∈ ["overworld"; "end"] →
  Screenshot.processImage_crop dimension 8 = Screenshot8k.processImage_crop dimension
  ∧ Screenshot.processImage_crop dimension 8 = (mkCrop 1220 620 1000 1000, 1000)
  ∧ ∀ rt seed jobId processedLength savedAt generatedAt,
      let outcome := Captured processedLength savedAt generatedAt in
      let dimensions (result : JSObj) :=
        prop (Server.own_props (prop result "metadata")) "dimensions" in
      dimensions (Screenshot.generateMap rt seed dimension jobId 8 outcome)
      = JSString "1000x1000"
      ∧ dimensions (Screenshot8k.generateMap rt seed dimension jobId outcome)
        = JSString "1000x1000".
Proof.
  intros Hd. rewrite !elem_of_cons, elem_of_nil in Hd.
  destruct Hd as [->|[->|[]]]; (split; [reflexivity|]); (split; [reflexivity|]);
    intros; split; reflexivity.
Qed.

Lemma crop_size_8_refines_8k_witness :
  "end" ∈ ["overworld"; "end"]
  ∧ Screenshot.processImage_crop "end" 8 = Screenshot8k.processImage_crop "end".
Proof.
  assert (Hd : "end" ∈ ["overworld"; "end"])
    by (apply list_elem_of_further, list_elem_of_here).
  split; [exact Hd|].
  exact (proj1 (crop_size_8_refines_8k "end" Hd)).
Defined.

(** ** [parseInt] reads back what [ToString] prints *)

Lemma digit_value_pretty_N_char (d : N) :
  (d < 10)%N → JSStr.digit_value (pretty_N_char d) = Some (Z.of_N d).
Proof.
  intros Hd.
  assert (d ∈ [0; 1; 2; 3; 4; 5; 6; 7; 8; 9]%N) as Hcases
    by (rewrite !elem_of_cons; lia).
  rewrite !elem_of_cons, elem_of_nil in Hcases.
  repeat (destruct Hcases as [->|Hcases]; [reflexivity|]). done.
Qed.

Lemma parse_digits_pretty_N_go (x : N) :
  (0 < x)%N →
  ∃ k, 0 ≤ k ∧ ∀ acc s,
    JSStr.parse_digits 10 acc (pretty_N_go x s)
    = JSStr.parse_digits 10 (Some (from_option id 0 acc * 10 ^ k + Z.of_N x)) s.
Proof.
  induction (N.lt_wf_0 x) as [x _ IH]. intros Hx.
  assert (Hdigit : (x `mod` 10 < 10)%N) by (apply N.mod_lt; lia).
  assert (Hsplit : Z.of_N x = 10 * Z.of_N (x `div` 10) + Z.of_N (x `mod` 10)).
  { rewrite <- (N2Z.inj_mul 10), <- N2Z.inj_add. f_equal. apply N.div_mod. lia. }
  destruct (decide (x `div` 10 = 0)%N) as [Hzero|Hmore].
  - exists 1. split; [lia|]. intros acc s.
    rewrite pretty_N_go_step, Hzero, pretty_N_go_0 by done. simpl.
    rewrite digit_value_pretty_N_char by done.
    destruct (Z.ltb_spec (Z.of_N (x `mod` 10)) 10); [|lia].
    f_equal. f_equal. rewrite Hsplit, Hzero. lia.
  - destruct (IH (x `div` 10)%N) as (k & Hk & Hparse).
    { apply N.div_lt; lia. }
    { apply N.neq_0_lt_0. exact Hmore. }
    exists (k + 1). split; [lia|]. intros acc s.
    rewrite pretty_N_go_step, Hparse by done. simpl.
    rewrite digit_value_pretty_N_char by done.
    destruct (Z.ltb_spec (Z.of_N (x `mod` 10)) 10); [|lia].
    f_equal. f_equal. rewrite Hsplit, Z.pow_add_r by lia. lia.
Qed.

(** A positive number prints with a digit from 1 to 9 in front. *)
Lemma pretty_N_go_head (x : N) (s : string) :
  (0 < x)%N →
  ∃ d r, pretty_N_go x s = String (pretty_N_char d) r ∧ (1 ≤ d ≤ 9)%N.
Proof.
  revert s. induction (N.lt_wf_0 x) as [x _ IH]. intros s Hx.
  rewrite pretty_N_go_step by done.
  destruct (decide (x `div` 10 = 0)%N) as [Hzero|Hmore].
  - rewrite Hzero, pretty_N_go_0. exists (x `mod` 10)%N, s. split; [done|].
    assert (x = 10 * (x `div` 10) + x `mod` 10)%N as Hsplit
      by (apply N.div_mod; lia).
    assert (x `mod` 10 < 10)%N by (apply N.mod_lt; lia).
    rewrite Hzero in Hsplit.
    generalize dependent (x `mod` 10)%N. intros m. lia.
  - apply IH.
    + apply N.div_lt; lia.
    + apply N.neq_0_lt_0. exact Hmore.
Qed.

Lemma parseInt_pretty_N_go (x : N) (sign : bool) :
  (0 < x)%N →
  JSStr.parseInt ((if sign then "-" else "") +:+ pretty_N_go x "")
  = Some (if sign then - Z.of_N x else Z.of_N x).
Proof.
  intros Hx.
  destruct (parse_digits_pretty_N_go x Hx) as (k & _ & Hparse).
  destruct (pretty_N_go_head x "" Hx) as (d & r & Hhead & Hd).
  assert (JSStr.parseInt ((if sign then "-" else "") +:+ pretty_N_go x "")
          = (λ n, (if sign then -1 else 1) * n)
              <$> JSStr.parse_digits 10 None (pretty_N_go x "")) as ->.
  { rewrite Hhead.
    assert (d ∈ [1; 2; 3; 4; 5; 6; 7; 8; 9]%N) as Hcases
      by (rewrite !elem_of_cons; lia).
    rewrite !elem_of_cons, elem_of_nil in Hcases.
    repeat (destruct Hcases as [->|Hcases]; [by destruct sign|]). done. }
  rewrite Hparse. simpl. f_equal. destruct sign; lia.
Qed.

Lemma parseInt_pretty (n : Z) : JSStr.parseInt (pretty n) = Some n.
Proof.
  destruct n as [|p|p]; [reflexivity|..].
  - apply (parseInt_pretty_N_go (N.pos p) false). lia.
  - apply (parseInt_pretty_N_go (N.pos p) true). lia.
Qed.

(** On a safe integer [isValidSize] is the range check. *)
Lemma isValidSize_number (n : Z) :
  isSafeInteger n = true →
  Utils.isValidSize (JSNumber n) = true ↔ 2 ≤ n ≤ 16.
Proof.
  intros _. unfold Utils.isValidSize. simpl. rewrite parseInt_pretty.
  rewrite andb_true_iff, !Z.leb_le. done.
Qed.

(** ** The job tracker of server.js *)

Section ServerProperties.

Import Server.

Context (rt : Runtime) (screenshot : Revision).

Implicit Types (st : State) (body : JSObj) (ev : Event).

Local Abbreviation MAX := (MAX_CONCURRENT_JOBS rt).

(** A dimension that passes the check normalizes to one of the three
    names. *)
Lemma normalizeDimension_valid (d : JSValue) :
  Utils.isValidDimension d = Some true →
  ∃ nd, Utils.normalizeDimension d = Some nd ∧ nd ∈ Utils.validDimensions.
Proof.
  destruct d as [| | | | |s|]; simpl; try discriminate.
  intros [= Hin%bool_decide_eq_true].
  exists (JSStr.toLowerCase s). split; [|exact Hin].
  destruct (String.eqb_spec (JSStr.toLowerCase s) "") as [He|]; [|done].
  rewrite He in Hin. unfold Utils.validDimensions in Hin.
  rewrite !elem_of_cons, elem_of_nil in Hin.
  destruct Hin as [?|[?|[?|[]]]]; discriminate.
Qed.

(** At the ceiling the handler leaves the state alone, whatever the request. *)
Lemma post_generate_full body now created st :
  MAX ≤ activeJobs st →
  (post_generate rt body now created st).2 = st.
Proof.
  intros Hfull. unfold post_generate.
  destruct (Utils.isValidSeed _); simpl; [|done].
  destruct (Utils.isValidDimension _) as [[]|]; [|done..].
  destruct (Z.leb_spec MAX (activeJobs st)); [done|lia].
Qed.

Lemma post_generate_full_429 body now created st :
  MAX ≤ activeJobs st →
  valid_request body = true →
  statusCode (post_generate rt body now created st).1 = 429
  ∧ prop (json (post_generate rt body now created st).1) "error"
    = JSString "TOO_MANY_JOBS".
Proof.
  intros Hfull [Hseed Hdim%bool_decide_eq_true]%andb_true_iff.
  unfold post_generate. rewrite Hseed, Hdim. simpl.
  destruct (Z.leb_spec MAX (activeJobs st)); [|lia].
  split; reflexivity.
Qed.

(** Below the ceiling a valid request is admitted: a record in state
    [processing] under the new job id, one more active job, one more
    promise. *)
Lemma post_generate_admits body now created st :
  valid_request body = true →
  activeJobs st < MAX →
  ∃ nd jobId record,
    Utils.normalizeDimension (requested_dimension body) = Some nd
    ∧ nd ∈ Utils.validDimensions
    ∧ jobId = Utils.generateJobId (prop body "seed") nd now
    ∧ prop record "status" = JSString "processing"
    ∧ prop record "dimension" = JSString nd
    ∧ statusCode (post_generate rt body now created st).1 = 200
    ∧ prop (json (post_generate rt body now created st).1) "jobId" = JSString jobId
    ∧ (post_generate rt body now created st).2
      = mkState (<[jobId := record]> (jobs st)) (activeJobs st + 1)
          (inFlight st ++ [mkPending jobId (prop body "seed") nd]).
Proof.
  intros [Hseed Hdim%bool_decide_eq_true]%andb_true_iff Hroom.
  destruct (normalizeDimension_valid _ Hdim) as (nd & Hnd & Hin).
  unfold post_generate. rewrite Hseed, Hdim, Hnd. simpl.
  destruct (Z.leb_spec MAX (activeJobs st)); [lia|].
  eexists nd, _, _. repeat split; try done.
Qed.

(** Every request either leaves the state alone or is an admission below
    the ceiling. *)
Lemma post_generate_state body now created st :
  (post_generate rt body now created st).2 = st
  ∨ (activeJobs st < MAX
     ∧ ∃ jobId record p,
         (post_generate rt body now created st).2
         = mkState (<[jobId := record]> (jobs st)) (activeJobs st + 1)
             (inFlight st ++ [p])).
Proof.
  destruct (Z.le_gt_cases MAX (activeJobs st)) as [Hfull|Hroom].
  { left. by apply post_generate_full. }
  destruct (valid_request body) eqn:Hvalid.
  - right. split; [lia|].
    destruct (post_generate_admits body now created st Hvalid)
      as (nd & jobId & record & _ & _ & _ & _ & _ & _ & _ & ->); [lia|].
    by eexists _, _, _.
  - left. apply andb_false_iff in Hvalid as [Hseed|Hdim%bool_decide_eq_false].
    + unfold post_generate. by rewrite Hseed.
    + unfold post_generate.
      destruct (Utils.isValidSeed _); [|done]. simpl.
      by destruct (Utils.isValidDimension _) as [[]|].
Qed.

Lemma get_status_counters jobId file st :
  activeJobs (get_status jobId file st).2 = activeJobs st
  ∧ inFlight (get_status jobId file st).2 = inFlight st.
Proof. unfold get_status. by destruct (jobs st !! jobId). Qed.

Lemma exec_counter_inv ev st st' :
  counter_inv rt st → exec rt screenshot ev st = Some st' → counter_inv rt st'.
Proof.
  intros [Hlen Hmax] Hexec. destruct ev as [body now created|k o c|k m c|j f|now];
    simpl in Hexec.
  - injection Hexec as <-.
    destruct (post_generate_state body now created st)
      as [->|(Hroom & jobId & record & p & ->)]; [done|].
    split; simpl; [|lia]. rewrite length_app. simpl. lia.
  - destruct (inFlight st !! k) as [p|] eqn:Hk; [|done].
    injection Hexec as <-. split; simpl; [|lia].
    rewrite length_delete by eauto.
    apply lookup_lt_Some in Hk. lia.
  - destruct (inFlight st !! k) as [p|] eqn:Hk; [|done].
    injection Hexec as <-. split; simpl; [|lia].
    rewrite length_delete by eauto.
    apply lookup_lt_Some in Hk. lia.
  - injection Hexec as <-.
    destruct (get_status_counters j f st) as [Ha Hi].
    unfold counter_inv. by rewrite Ha, Hi.
  - injection Hexec as <-. done.
Qed.

Lemma reachable_counter_inv st :
  reachable rt screenshot st → counter_inv rt st.
Proof.
  intros Hreach. induction Hreach as [|st ev st' _ IH Hexec].
  - split; simpl; lia.
  - eauto using exec_counter_inv.
Qed.

(** A completion that is enabled takes one off the counter. *)
Lemma exec_completion_counter ev st st' :
  is_completion ev = true →
  exec rt screenshot ev st = Some st' →
  activeJobs st' = activeJobs st - 1.
Proof.
  destruct ev as [| k o c | k m c | |]; try discriminate; intros _; simpl;
    destruct (inFlight st !! k); intros [= <-]; done.
Qed.

(** C3.  With a positive ceiling, in every state the server can reach: the
    counter [activeJobs] lies between 0 and [MAX_CONCURRENT_JOBS]; if it has
    reached the ceiling, a request changes neither the job records nor the
    counter, and a request with valid seed and dimension is answered 429
    TOO_MANY_JOBS; and once one promise in flight settles at the ceiling,
    the next valid request is admitted (200, counter back at the ceiling)
    and the one after it is answered 429 again, the state left alone. *)
Theorem admission_counter_bounded st :
  0 < MAX →
  reachable rt screenshot st →
  0 ≤ activeJobs st ≤ MAX
  ∧ (MAX ≤ activeJobs st →
     ∀ body now created,
       (post_generate rt body now created st).2 = st
       ∧ (valid_request body = true →
          statusCode (post_generate rt body now created st).1 = 429
          ∧ prop (json (post_generate rt body now created st).1) "error"
            = JSString "TOO_MANY_JOBS"))
  ∧ (activeJobs st = MAX →
     ∀ ev st1,
       is_completion ev = true →
       exec rt screenshot ev st = Some st1 →
       ∀ body now created,
         valid_request body = true →
         let admitted := post_generate rt body now created st1 in
         statusCode admitted.1 = 200
         ∧ activeJobs admitted.2 = MAX
         ∧ ∀ body' now' created',
             valid_request body' = true →
             let refused := post_generate rt body' now' created' admitted.2 in
             statusCode refused.1 = 429 ∧ refused.2 = admitted.2).
Proof.
  intros Hpos Hreach.
  destruct (reachable_counter_inv st Hreach) as [Hlen Hmax].
  split; [lia|]. split.
  - intros Hfull body now created. split.
    + by apply post_generate_full.
    + by apply post_generate_full_429.
  - intros Hfull ev st1 Hev Hexec body now created Hvalid admitted.
    pose proof (exec_completion_counter ev st st1 Hev Hexec) as Hdec.
    destruct (post_generate_admits body now created st1 Hvalid)
      as (nd & jobId & record & _ & _ & _ & _ & _ & Hcode & _ & Hst); [lia|].
    subst admitted. split; [exact Hcode|].
    split; [rewrite Hst; simpl; lia|].
    intros body' now' created' Hvalid' refused. subst refused.
    rewrite Hst. split.
    + apply post_generate_full_429; [simpl; lia|done].
    + apply post_generate_full. simpl. lia.
Qed.


(** *** Completion *)

(** What a completion handler writes, whatever the record held before. *)
Lemma on_fulfilled_status jobId (result : JSObj) completed st :
  is_Some (result !! "status") →
  status_of (on_fulfilled rt jobId result completed st) jobId
  = Some (prop result "status").
Proof.
  intros [v Hv]. unfold status_of, on_fulfilled, prop, spread. simpl.
  rewrite lookup_insert_eq. simpl.
  rewrite lookup_insert_ne by done.
  by rewrite (lookup_union_Some_l _ _ _ _ Hv), Hv.
Qed.

Lemma on_rejected_status jobId message completed st :
  status_of (on_rejected rt jobId message completed st) jobId
  = Some (JSString "failed").
Proof.
  unfold status_of, on_rejected, prop, spread. simpl.
  rewrite lookup_insert_eq. simpl.
  by erewrite lookup_union_Some_l.
Qed.

Lemma generateMap_status p outcome :
  generateMap rt screenshot p outcome !! "status"
  = Some (JSString (outcome_status outcome)).
Proof. by destruct screenshot, outcome. Qed.

(** A run from the initial state ends in a state the server can reach. *)
Lemma run_reachable evs st st' :
  reachable rt screenshot st →
  run rt screenshot evs st = Some st' →
  reachable rt screenshot st'.
Proof.
  revert st. induction evs as [|ev evs IH]; intros st Hreach; simpl.
  - by intros [= <-].
  - destruct (exec rt screenshot ev st) as [st1|] eqn:Hexec; [|done]. simpl.
    apply IH. by eapply reachable_step.
Qed.


(** *** The lifecycle of a job whose id is its own *)

Lemma post_generate_outcome body now created st :
  (post_generate rt body now created st).2 = st
  ∨ ∃ jobId record p,
      prop (json (post_generate rt body now created st).1) "jobId"
      = JSString jobId
      ∧ prop record "status" = JSString "processing"
      ∧ p_jobId p = jobId
      ∧ (post_generate rt body now created st).2
        = mkState (<[jobId := record]> (jobs st)) (activeJobs st + 1)
            (inFlight st ++ [p]).
Proof.
  destruct (Z.le_gt_cases MAX (activeJobs st)) as [Hfull|Hroom].
  { left. by apply post_generate_full. }
  destruct (valid_request body) eqn:Hvalid.
  - right.
    destruct (post_generate_admits body now created st Hvalid)
      as (nd & jobId & record & _ & _ & _ & Hstatus & _ & _ & Hid & Hst);
      [lia|].
    by eexists jobId, record, (mkPending jobId _ nd).
  - left. apply andb_false_iff in Hvalid as [Hseed|Hdim%bool_decide_eq_false].
    + unfold post_generate. by rewrite Hseed.
    + unfold post_generate.
      destruct (Utils.isValidSeed _); [|done]. simpl.
      by destruct (Utils.isValidDimension _) as [[]|].
Qed.

Lemma status_of_insert st a i (record : JSObj) j :
  status_of (mkState (<[j := record]> (jobs st)) a i) j
  = Some (prop record "status").
Proof. unfold status_of. simpl. by rewrite lookup_insert_eq. Qed.

Lemma status_of_insert_ne st a i (record : JSObj) j j' :
  j ≠ j' →
  status_of (mkState (<[j := record]> (jobs st)) a i) j' = status_of st j'.
Proof. intros. unfold status_of. simpl. by rewrite lookup_insert_ne. Qed.

Lemma get_status_status jobId file st j :
  status_of (get_status jobId file st).2 j = status_of st j.
Proof.
  unfold get_status. destruct (jobs st !! jobId) as [job0|] eqn:Hjob; [|done].
  simpl. destruct (decide (jobId = j)) as [->|Hne].
  - rewrite status_of_insert. unfold status_of. rewrite Hjob. simpl. f_equal.
    destruct (_ && _); [|done]. destruct file as [[??]|]; [|done].
    unfold prop. by rewrite lookup_insert_ne.
  - by rewrite status_of_insert_ne.
Qed.

Lemma expired_terminal now (job : JSObj) :
  expired rt now job = true →
  ∃ s, prop job "status" = JSString s ∧ s ∈ ["ready"; "failed"].
Proof.
  unfold expired. destruct (getTime _ _); [|done].
  intros [_ Hterm]%andb_true_iff.
  destruct (prop job "status") as [| | | | |s|]; try done. simpl in Hterm.
  exists s. split; [done|].
  apply orb_true_iff in Hterm as [->%String.eqb_eq| ->%String.eqb_eq];
    rewrite !elem_of_cons; auto.
Qed.

Lemma post_cleanup_status now st j :
  status_of (post_cleanup rt now st).2 j = status_of st j
  ∨ ∃ s, status_of st j = Some (JSString s) ∧ s ∈ ["ready"; "failed"]
         ∧ status_of (post_cleanup rt now st).2 j = None.
Proof.
  unfold status_of, post_cleanup. simpl.
  destruct (jobs st !! j) as [job|] eqn:Hjob.
  - destruct (expired rt now job) eqn:Hexp.
    + right. destruct (expired_terminal now job Hexp) as (s & Hs & Hin).
      exists s. simpl. rewrite Hs. split; [done|]. split; [done|].
      rewrite (proj2 (map_lookup_filter_None _ _ _)); [done|].
      right. intros x Hx. simpl. congruence.
    + left. by erewrite map_lookup_filter_Some_2.
  - left. rewrite (proj2 (map_lookup_filter_None _ _ _)); [done|]. by left.
Qed.

Lemma inFlight_delete_lookup (l : list Pending) k k' p p' :
  NoDup (p_jobId <$> l) →
  l !! k = Some p →
  delete k l !! k' = Some p' →
  p_jobId p' ≠ p_jobId p ∧ ∃ k'', l !! k'' = Some p'.
Proof.
  intros Hnodup Hk. rewrite list_lookup_delete. intros Hk'.
  split; [|eauto]. intros Heq.
  assert ((if decide (k' < k)%nat then k' else S k') = k) as Hpos.
  { apply (NoDup_lookup _ _ _ (p_jobId p) Hnodup);
      rewrite list_lookup_fmap; [by rewrite Hk', <- Heq|by rewrite Hk]. }
  case_decide; lia.
Qed.

(** With fresh job ids, a turn keeps the promises on distinct jobs that are
    [processing], and moves the status of every job along the lifecycle:
    not found to [processing], [processing] to [ready] or [failed], and a
    terminal job out of the records at cleanup; nothing else. *)
Lemma exec_lifecycle ev st st' :
  ids_inv st →
  fresh_admission rt ev st →
  exec rt screenshot ev st = Some st' →
  ids_inv st' ∧ ∀ j, lifecycle_step (status_of st j) (status_of st' j).
Proof.
  intros [Hnodup Hproc] Hfresh Hexec.
  destruct ev as [body now created|k o c|k m c|jobId file|now]; simpl in *.
  - injection Hexec as <-.
    destruct (post_generate_outcome body now created st)
      as [->|(jobId & record & p & Hid & Hstatus & Hp & ->)].
    { split; [done|]. intros j. constructor. }
    specialize (Hfresh jobId Hid).
    assert (Hnew : ∀ k' p', inFlight st !! k' = Some p' → p_jobId p' ≠ jobId).
    { intros k' p' Hk' Heq. specialize (Hproc k' p' Hk').
      unfold status_of in Hproc. by rewrite Heq, Hfresh in Hproc. }
    split; [split|]; simpl.
    + rewrite fmap_app. apply NoDup_app. split; [done|]. split.
      * intros id (p' & -> & [k' Hk']%list_elem_of_lookup)%list_elem_of_fmap.
        simpl. rewrite list_elem_of_singleton, Hp. eauto.
      * simpl. apply NoDup_singleton.
    + intros k' p' Hk'. apply lookup_app_Some in Hk' as [Hk'|[_ Hk']].
      * rewrite status_of_insert_ne by (symmetry; eauto). eauto.
      * apply list_lookup_singleton_Some in Hk' as [_ <-].
        rewrite Hp, status_of_insert. by rewrite Hstatus.
    + intros j. destruct (decide (jobId = j)) as [<-|Hne].
      * rewrite status_of_insert, Hstatus.
        unfold status_of at 1. rewrite Hfresh. constructor.
      * rewrite status_of_insert_ne by done. constructor.
  - destruct (inFlight st !! k) as [p|] eqn:Hk; [|done].
    injection Hexec as <-. split; [split|]; simpl.
    + rewrite list_fmap_delete. eapply sublist_NoDup; [exact Hnodup|apply sublist_delete].
    + intros k' p' Hk'.
      destruct (inFlight_delete_lookup _ _ _ _ _ Hnodup Hk Hk') as [Hne [k'' Hk'']].
      unfold on_fulfilled. rewrite status_of_insert_ne by done.
      apply (Hproc k'' p' Hk'').
    + intros j. destruct (decide (p_jobId p = j)) as [<-|Hne].
      * rewrite on_fulfilled_status by (rewrite generateMap_status; eauto).
        rewrite (Hproc k p Hk). unfold prop. rewrite generateMap_status. simpl.
        constructor. destruct o; simpl; rewrite !elem_of_cons; auto.
      * unfold on_fulfilled. rewrite status_of_insert_ne by done. constructor.
  - destruct (inFlight st !! k) as [p|] eqn:Hk; [|done].
    injection Hexec as <-. split; [split|]; simpl.
    + rewrite list_fmap_delete. eapply sublist_NoDup; [exact Hnodup|apply sublist_delete].
    + intros k' p' Hk'.
      destruct (inFlight_delete_lookup _ _ _ _ _ Hnodup Hk Hk') as [Hne [k'' Hk'']].
      unfold on_rejected. rewrite status_of_insert_ne by done.
      apply (Hproc k'' p' Hk'').
    + intros j. destruct (decide (p_jobId p = j)) as [<-|Hne].
      * rewrite on_rejected_status, (Hproc k p Hk).
        constructor. rewrite !elem_of_cons; auto.
      * unfold on_rejected. rewrite status_of_insert_ne by done. constructor.
  - injection Hexec as <-.
    destruct (get_status_counters jobId file st) as [_ Hin].
    split; [split|].
    + by rewrite Hin.
    + intros k p. rewrite Hin, get_status_status. apply Hproc.
    + intros j. rewrite get_status_status. constructor.
  - assert (st' = (post_cleanup rt now st).2) as -> by (by injection Hexec).
    clear Hexec. split; [split|].
    + done.
    + intros k p Hk.
      destruct (post_cleanup_status now st (p_jobId p))
        as [->|(s & Hs & Hin & _)]; [by apply (Hproc k)|].
      rewrite (Hproc k p Hk) in Hs. injection Hs as <-.
      rewrite !elem_of_cons, elem_of_nil in Hin.
      destruct Hin as [?|[?|[]]]; discriminate.
    + intros j.
      destruct (post_cleanup_status now st j) as [Hsame|(s & Hs & Hin & Hgone)].
      * rewrite Hsame. constructor.
      * rewrite Hs, Hgone. by constructor.
Qed.

Lemma reachable_fresh_ids_inv st :
  reachable_fresh rt screenshot st → ids_inv st.
Proof.
  induction 1 as [|st ev st' _ IH Hfresh Hexec].
  - split; [constructor|]. intros k p Hk. done.
  - by destruct (exec_lifecycle ev st st' IH Hfresh Hexec).
Qed.

(** In a run with fresh job ids, the status of every job moves along the
    lifecycle at each turn. *)
Lemma lifecycle_monotone_with_fresh_ids ev st st' (j : string) :
  reachable_fresh rt screenshot st →
  fresh_admission rt ev st →
  exec rt screenshot ev st = Some st' →
  lifecycle_step (status_of st j) (status_of st' j).
Proof.
  intros Hreach Hfresh Hexec.
  by destruct (exec_lifecycle ev st st' (reachable_fresh_ids_inv st Hreach)
                 Hfresh Hexec) as [_ Hstep].
Qed.

(** *** Dimension default and normalization *)

Lemma toLowerCase_char_fold (a : ascii) :
  JSStr.is_lower_letter (JSStr.fold_case a) = true →
  JSStr.toLowerCase_char a = JSStr.fold_case a.
Proof.
  destruct a as [[] [] [] [] [] [] [] []]; vm_compute; intros H;
    first [reflexivity | discriminate H].
Qed.

Lemma fold_case_lower (b : ascii) :
  JSStr.is_lower_letter b = true → JSStr.fold_case b = b.
Proof.
  destruct b as [[] [] [] [] [] [] [] []]; vm_compute; intros H;
    first [reflexivity | discriminate H].
Qed.

(** A string that equals a lower-case word up to the case of its letters
    has that word as its [toLowerCase]. *)
Lemma toLowerCase_equal_ignoring_case (s t : string) :
  JSStr.all_lower_letters t = true →
  JSStr.equal_ignoring_case s t = true →
  JSStr.toLowerCase s = t.
Proof.
  revert t. induction s as [|a s IH]; intros [|b t]; simpl; try done.
  intros [Hb Ht]%andb_true_iff [Hab%Ascii.eqb_eq Hst]%andb_true_iff.
  rewrite (fold_case_lower b) in Hab by done.
  rewrite toLowerCase_char_fold by (by rewrite Hab).
  by rewrite Hab, (IH t).
Qed.

Lemma validDimensions_lower (d : string) :
  d ∈ Utils.validDimensions → JSStr.all_lower_letters d = true ∧ d ≠ "".
Proof.
  unfold Utils.validDimensions. rewrite !elem_of_cons, elem_of_nil.
  intros [->|[->|[->|[]]]]; done.
Qed.

(** C10.  A request with a valid seed that arrives below the ceiling is
    admitted in both of these cases, and its record holds the dimension in
    lower case: when the body has no [dimension] property, the record says
    [overworld]; when [dimension] is a string that equals one of overworld,
    nether, end up to the case of its letters, the record says that name. *)
Theorem dimension_default_and_normalized body now created st (d : string) :
  Utils.isValidSeed (prop body "seed") = true →
  activeJobs st < MAX →
  (body !! "dimension" = None ∧ d = "overworld")
  ∨ (∃ s, body !! "dimension" = Some (JSString s)
          ∧ d ∈ Utils.validDimensions
          ∧ JSStr.equal_ignoring_case s d = true) →
  ∃ jobId record,
    statusCode (post_generate rt body now created st).1 = 200
    ∧ prop (json (post_generate rt body now created st).1) "jobId"
      = JSString jobId
    ∧ jobs (post_generate rt body now created st).2 !! jobId = Some record
    ∧ prop record "status" = JSString "processing"
    ∧ prop record "dimension" = JSString d.
Proof.
  intros Hseed Hroom Hdim.
  assert (Utils.isValidDimension (requested_dimension body) = Some true
          ∧ Utils.normalizeDimension (requested_dimension body) = Some d)
    as [Hvalid Hnorm].
  { unfold requested_dimension, prop.
    destruct Hdim as [[-> ->]|(s & -> & Hd & Heq)]; [done|]. simpl.
    destruct (validDimensions_lower d Hd) as [Hlower Hne].
    rewrite (toLowerCase_equal_ignoring_case s d Hlower Heq).
    rewrite bool_decide_eq_true_2 by done.
    by destruct (String.eqb_spec d ""). }
  destruct (post_generate_admits body now created st)
    as (nd & jobId & record & Hnd & _ & _ & Hstatus & Hrec & Hcode & Hid & Hst);
    [|done|].
  { unfold valid_request. rewrite Hseed, Hvalid. by rewrite bool_decide_eq_true_2. }
  rewrite Hnorm in Hnd. injection Hnd as <-.
  exists jobId, record. rewrite Hst. simpl.
  by rewrite lookup_insert_eq.
Qed.

(** *** The size of the world *)

(** C6, amended.  The handler does not read the [size] property of the
    body: whatever it holds, the response and the resulting state are those
    of the same request without it.  The range check exists, as
    [isValidSize], which accepts a safe integer exactly when it lies from 2
    to 16, but the handler does not call it. *)
Theorem post_generate_ignores_size body (size : JSValue) now created st :
  post_generate rt (<["size" := size]> body) now created st
  = post_generate rt body now created st
  ∧ ∀ n : Z,
      isSafeInteger n = true →
      Utils.isValidSize (JSNumber n) = true ↔ 2 ≤ n ≤ 16.
Proof.
  split; [|apply isValidSize_number].
  unfold post_generate, requested_dimension, prop.
  by rewrite !lookup_insert_ne by done.
Qed.

End ServerProperties.

(** ** Instances and evaluations on sample requests *)

Lemma admission_counter_bounded_witness :
  let rt := Samples.single_slot in
  let st := (Server.post_generate rt Samples.body 1700000000000 1700000000000
               Server.init).2 in
  0 < Server.MAX_CONCURRENT_JOBS rt
  ∧ Server.reachable rt Server.RevSized st
  ∧ Server.activeJobs st = Server.MAX_CONCURRENT_JOBS rt
  ∧ 0 ≤ Server.activeJobs st ≤ Server.MAX_CONCURRENT_JOBS rt.
Proof.
  intros rt st.
  assert (Hpos : 0 < Server.MAX_CONCURRENT_JOBS rt) by (vm_compute; reflexivity).
  assert (Hreach : Server.reachable rt Server.RevSized st).
  { apply (Server.reachable_step rt Server.RevSized Server.init
             (Server.PostGenerate Samples.body 1700000000000 1700000000000)).
    - apply Server.reachable_init.
    - reflexivity. }
  split; [exact Hpos|]. split; [exact Hreach|]. split; [vm_compute; reflexivity|].
  exact (proj1 (admission_counter_bounded rt Server.RevSized st Hpos Hreach)).
Defined.

Lemma sample_admitted_reachable (rt : Runtime) (screenshot : Server.Revision) :
  Server.reachable rt screenshot
    (Server.post_generate rt Samples.body 1700000000000 1700000000000
       Server.init).2.
Proof.
  apply (Server.reachable_step rt screenshot Server.init
           (Server.PostGenerate Samples.body 1700000000000 1700000000000)).
  - apply Server.reachable_init.
  - reflexivity.
Defined.

(** C4: the code at the failing input.  Two requests for the same seed and
    dimension that read the same millisecond are admitted under one job id,
    and each has its promise.  The first promise resolves with the failure
    object: the job is [failed], the counter goes from 2 to 1.  The second
    resolves with a capture: the completion handler runs a second time for
    that job id, replaces the terminal status [failed] by [ready] and takes
    one more off the counter.  Every state of this run is one the server
    can reach. *)
Theorem completion_repeats_on_shared_id (screenshot : Server.Revision) :
  let rt := Samples.runtime in
  let post := Server.PostGenerate Samples.body 1700000000000 1700000000000 in
  let fails := Server.Fulfil 0 (Thrown "Navigation timeout") 1700000030000 in
  let succeeds :=
    Server.Fulfil 0 (Captured 204800 1700000040000 1700000040000)
      1700000040001 in
  ∃ admitted failed ready,
    Server.run rt screenshot [post; post] Server.init = Some admitted
    ∧ Server.exec rt screenshot fails admitted = Some failed
    ∧ Server.exec rt screenshot succeeds failed = Some ready
    ∧ Server.reachable rt screenshot ready
    ∧ Server.p_jobId <$> Server.inFlight admitted = [Samples.jobId; Samples.jobId]
    ∧ Server.p_jobId <$> Server.inFlight failed = [Samples.jobId]
    ∧ Server.status_of admitted Samples.jobId = Some (JSString "processing")
    ∧ Server.activeJobs admitted = 2
    ∧ Server.status_of failed Samples.jobId = Some (JSString "failed")
    ∧ Server.activeJobs failed = 1
    ∧ Server.status_of ready Samples.jobId = Some (JSString "ready")
    ∧ Server.activeJobs ready = 0.
Proof.
  intros rt post fails succeeds.
  destruct screenshot; eexists _, _, _;
    (split; [reflexivity|]); (split; [reflexivity|]); (split; [reflexivity|]);
    (split;
     [ eapply (run_reachable rt _ [post; post; fails; succeeds] Server.init);
       [apply Server.reachable_init|reflexivity]
     | vm_compute; repeat split ]).
Qed.

(** C9: the code at the failing input.  Two requests for the same seed and
    dimension that read the same millisecond from [Date.now()] are both
    admitted and are given the same job id: one record for two active
    jobs. *)
Theorem job_id_repeats_within_a_millisecond :
  let rt := Samples.runtime in
  let first :=
    Server.post_generate rt Samples.body 1700000000000 1700000000000
      Server.init in
  let second :=
    Server.post_generate rt Samples.body 1700000000000 1700000000001
      first.2 in
  Server.statusCode first.1 = 200
  ∧ Server.statusCode second.1 = 200
  ∧ prop (Server.json first.1) "jobId" = JSString Samples.jobId
  ∧ prop (Server.json second.1) "jobId" = JSString Samples.jobId
  ∧ size (Server.jobs second.2) = 1%nat
  ∧ Server.activeJobs second.2 = 2.
Proof. vm_compute. repeat split. Qed.

(** Apart from that, the millisecond is what tells two ids for the same
    seed and dimension apart. *)
Lemma generateJobId_timestamp_inj (seed : JSValue) (dimension : string) (t1 t2 : Z) :
  Utils.generateJobId seed dimension t1 = Utils.generateJobId seed dimension t2 →
  t1 = t2.
Proof.
  unfold Utils.generateJobId. intros H.
  repeat apply String.app_inj in H. by apply pretty_Z_inj in H.
Qed.

(** C5: the code at the failing input.  With the two requests of the same
    millisecond above, the job is not found before, [processing] after the
    requests, [failed] once the first render has failed, and [ready] once
    the second has succeeded: from one terminal state to the other.  And a
    request that reads the millisecond of a job that has already failed
    puts that job back to [processing]. *)
Theorem job_status_not_monotone_on_shared_id (screenshot : Server.Revision) :
  let rt := Samples.runtime in
  let post := Server.PostGenerate Samples.body 1700000000000 1700000000000 in
  let fails := Server.Fulfil 0 (Thrown "Navigation timeout") 1700000030000 in
  let succeeds :=
    Server.Fulfil 0 (Captured 204800 1700000040000 1700000040000)
      1700000040001 in
  let status evs := Server.status_after rt screenshot evs Samples.jobId in
  status [] = Some None
  ∧ status [post; post] = Some (Some (JSString "processing"))
  ∧ status [post; post; fails] = Some (Some (JSString "failed"))
  ∧ status [post; post; fails; succeeds] = Some (Some (JSString "ready"))
  ∧ status [post; fails] = Some (Some (JSString "failed"))
  ∧ status [post; fails; post] = Some (Some (JSString "processing")).
Proof. destruct screenshot; vm_compute; repeat split. Qed.

(** C6, as the specification states it, fails: a request with size 17, a
    size that [isValidSize] refuses, is admitted; it gets a record and
    counts as an active job. *)
Lemma size_17_admitted_counterexample :
  let answer :=
    Server.post_generate Samples.runtime Samples.body_size_17
      1700000000000 1700000000000 Server.init in
  Utils.isValidSize (prop Samples.body_size_17 "size") = false
  ∧ Server.statusCode answer.1 = 200
  ∧ Server.status_of answer.2 Samples.jobId = Some (JSString "processing")
  ∧ Server.activeJobs answer.2 = 1.
Proof. vm_compute. repeat split. Qed.

Lemma post_generate_ignores_size_witness :
  isSafeInteger 16 = true
  ∧ Utils.isValidSize (JSNumber 16) = true
  ∧ isSafeInteger 17 = true
  ∧ Utils.isValidSize (JSNumber 17) = false.
Proof.
  assert (H16 : isSafeInteger 16 = true) by reflexivity.
  assert (H17 : isSafeInteger 17 = true) by reflexivity.
  pose proof (proj2 (post_generate_ignores_size Samples.runtime Samples.body
                       (JSNumber 17) 1700000000000 1700000000000 Server.init))
    as Hrange.
  split; [exact H16|]. split; [|split; [exact H17|]].
  - apply (proj2 (Hrange 16 H16)). lia.
  - apply not_true_is_false. intros H%(proj1 (Hrange 17 H17)). lia.
Defined.

Lemma dimension_default_and_normalized_witness :
  let rt := Samples.runtime in
  let answer :=
    Server.post_generate rt Samples.body_mixed_case
      1700000000000 1700000000000 Server.init in
  Utils.isValidSeed (prop Samples.body_mixed_case "seed") = true
  ∧ Server.activeJobs Server.init < Server.MAX_CONCURRENT_JOBS rt
  ∧ JSStr.equal_ignoring_case "NeThEr" "nether" = true
  ∧ ∃ jobId record,
      Server.jobs answer.2 !! jobId = Some record
      ∧ prop record "dimension" = JSString "nether".
Proof.
  intros rt answer.
  assert (Hseed : Utils.isValidSeed (prop Samples.body_mixed_case "seed") = true)
    by reflexivity.
  assert (Hroom : Server.activeJobs Server.init < Server.MAX_CONCURRENT_JOBS rt)
    by (vm_compute; reflexivity).
  assert (Heq : JSStr.equal_ignoring_case "NeThEr" "nether" = true)
    by reflexivity.
  split; [exact Hseed|]. split; [exact Hroom|]. split; [exact Heq|].
  destruct (dimension_default_and_normalized rt Samples.body_mixed_case
              1700000000000 1700000000000 Server.init "nether" Hseed Hroom)
    as (jobId & record & _ & _ & Hrecord & _ & Hdim).
  { right. exists "NeThEr". split; [reflexivity|]. split; [|exact Heq].
    apply list_elem_of_further, list_elem_of_here. }
  exists jobId, record. split; [exact Hrecord|exact Hdim].
Defined.

(** ** The browser session of screenshot.js *)

Section SessionStages.

Import Pipeline.

Context (world : Call → Outcome).

(** The three best-effort stages return whatever the page does, having
    made only clicks, the page script and waits. *)
Lemma handleCookieBanner_returns (w : Call → Outcome) (l : Local) :
  ∃ tr, handleCookieBanner w l = (inl tt, mkLocal (calls l ++ tr) (browser l))
        ∧ forallb best_effort tr = true.
Proof.
  cbv [handleCookieBanner try_catch call sleep mbind M_bind bind ret].
  repeat (match goal with |- context [w ?c] => destruct (w c) end;
          cbv beta iota zeta delta [calls browser]);
    rewrite <- ?app_assoc; eexists; split; reflexivity.
Qed.

Lemma toggleSidebar_returns (w : Call → Outcome) (l : Local) :
  ∃ tr, toggleSidebar w l = (inl tt, mkLocal (calls l ++ tr) (browser l))
        ∧ forallb best_effort tr = true.
Proof.
  cbv [toggleSidebar try_catch call sleep mbind M_bind bind ret].
  repeat (match goal with |- context [w ?c] => destruct (w c) end;
          cbv beta iota zeta delta [calls browser]);
    rewrite <- ?app_assoc; eexists; split; reflexivity.
Qed.

Lemma configureMarkers_returns (w : Call → Outcome) (l : Local) :
  ∃ tr, configureMarkers w l = (inl tt, mkLocal (calls l ++ tr) (browser l))
        ∧ forallb best_effort tr = true.
Proof.
  cbv [configureMarkers try_catch call sleep mbind M_bind bind ret].
  repeat (match goal with |- context [w ?c] => destruct (w c) end;
          cbv beta iota zeta delta [calls browser]);
    rewrite <- ?app_assoc; eexists; split; reflexivity.
Qed.

Lemma count_app kind (l k : list Call) :
  count kind (l ++ k) = (count kind l + count kind k)%nat.
Proof. induction l as [|c l IH]; simpl; [done|]. rewrite IH. lia. Qed.

Lemma count_best_effort kind (tr : list Call) :
  (∀ c, best_effort c = true → kind c = false) →
  forallb best_effort tr = true →
  count kind tr = 0%nat.
Proof.
  intros Hkind. induction tr as [|c tr IH]; simpl; [done|].
  intros [Hc Htr]%andb_true_iff. by rewrite (Hkind c Hc), IH.
Qed.

Lemma best_effort_not_close c : best_effort c = true → is_close c = false.
Proof. by destruct c. Qed.
Lemma best_effort_not_save c : best_effort c = true → is_save c = false.
Proof. by destruct c. Qed.

End SessionStages.

(** Runs a session along every outcome of its setup, capture, processing
    and saving calls, the best-effort stages taken as a whole. *)
Ltac session_step :=
  match goal with
  | |- context [Pipeline.handleCookieBanner ?w ?l] =>
      let tr := fresh "tr" in let Htr := fresh "Htr" in
      destruct (handleCookieBanner_returns w l) as (tr & -> & Htr)
  | |- context [Pipeline.toggleSidebar ?w ?l] =>
      let tr := fresh "tr" in let Htr := fresh "Htr" in
      destruct (toggleSidebar_returns w l) as (tr & -> & Htr)
  | |- context [Pipeline.configureMarkers ?w ?l] =>
      let tr := fresh "tr" in let Htr := fresh "Htr" in
      destruct (configureMarkers_returns w l) as (tr & -> & Htr)
  | |- context [Pipeline.calm ?w ?c] =>
      progress change (Pipeline.calm w c) with (w c)
  | |- context [Pipeline.calm ?w ?c] =>
      progress change (Pipeline.calm w c) with (Pipeline.Returns 0)
  | |- context [match ?w ?c with Pipeline.Returns _ => _ | Pipeline.Throws _ => _ end] =>
      destruct (w c)
  | |- context [if ?b then _ else _] => is_var b; destruct b
  | |- context [if String.eqb ?a ?b then _ else _] => destruct (String.eqb a b)
  end.

Ltac unfold_session :=
  cbv [Pipeline.start Pipeline.generateMap Pipeline.generateMap8k
       Pipeline.close_browser Pipeline.processImage Pipeline.processImage8k
       Pipeline.finally Pipeline.try_catch Pipeline.call Pipeline.sleep
       Pipeline.assign_browser mbind Pipeline.M_bind Pipeline.bind
       Pipeline.ret Pipeline.throw
       Pipeline.session_outcome Pipeline.first_failure
       Screenshot.processImage_crop Screenshot8k.processImage_crop].

Ltac follow_outcomes :=
  repeat (session_step;
          cbv beta iota zeta delta [Pipeline.calls Pipeline.browser fst snd]).

Ltac run_outcomes := unfold_session; follow_outcomes.

Ltac count_calls :=
  rewrite ?count_app;
  repeat match goal with
         | H : forallb Pipeline.best_effort ?tr = true
           |- context [Pipeline.count ?kind ?tr] =>
             rewrite (count_best_effort kind tr ltac:(by intros []) H)
         end;
  reflexivity.

Section SessionResults.
Import Pipeline.
Context (world : Call → Outcome).

(** X17.  With [debug] off, the promise of [generateMap] resolves with the
    object that [Screenshot.generateMap] builds from the outcome of the
    session: the failure object with the message of the first of launch,
    new page, viewport, navigation, screenshot, sharp and save that throws,
    else the success object for the length sharp returned.  Likewise for
    the 8k-only revision. *)
Theorem session_result_refines (rt : Runtime) (clock : Clock)
    (seed : JSValue) (dimension jobId : string) (size : Z) :
  let '(crop, finalSize) := Screenshot.processImage_crop dimension size in
  let filename :=
    "seed-" +:+ ToString seed +:+ "-" +:+ dimension +:+ "-"
    +:+ pretty size +:+ "k-" +:+ pretty (savedAt clock) +:+ ".png" in
  (start (generateMap world rt clock seed dimension jobId size false)).1
  = inl (Screenshot.generateMap rt seed dimension jobId size
           (session_outcome world clock seed dimension
              (Sharp crop finalSize) (SaveImage filename)))
  ∧ (let '(crop8k, finalSize8k) := Screenshot8k.processImage_crop dimension in
     let filename8k :=
       "seed-" +:+ ToString seed +:+ "-" +:+ dimension +:+ "-"
       +:+ pretty (savedAt clock) +:+ ".png" in
     (start (generateMap8k world rt clock seed dimension jobId)).1
     = inl (Screenshot8k.generateMap rt seed dimension jobId
              (session_outcome world clock seed dimension
                 (Sharp crop8k finalSize8k) (SaveImage filename8k)))).
Proof.
  split; run_outcomes; reflexivity.
Qed.

(** X18.  The promise of [generateMap] never rejects, in either revision.
    If the launch throws, it is the only call made; otherwise the session
    starts with the launch and ends with the closing of the browser, which
    happens exactly once, whatever else throws, the closing included. *)
Theorem session_closes_browser (rt : Runtime) (clock : Clock)
    (seed : JSValue) (dimension jobId : string) (size : Z) (debug : bool) :
  let closes (r : (JSObj + string) * list Call) :=
    (∃ result, r.1 = inl result)
    ∧ match world Launch with
      | Throws _ => r.2 = [Launch]
      | Returns _ =>
          head r.2 = Some Launch
          ∧ last r.2 = Some CloseBrowser
          ∧ count is_close r.2 = 1%nat
      end in
  closes (start (generateMap world rt clock seed dimension jobId size debug))
  ∧ closes (start (generateMap8k world rt clock seed dimension jobId)).
Proof.
  intros closes. subst closes. cbv beta.
  split; (split; [run_outcomes; eexists; reflexivity|]);
    run_outcomes; repeat split;
      first [ reflexivity
            | apply last_snoc
            | by rewrite <- ?app_assoc
            | count_calls ].
Qed.

(** X19.  The cookie banner, the sidebar, the markers and the closing of
    the browser are best effort: [generateMap] resolves with the same
    object as in the world where those calls all succeed. *)
Theorem session_result_ignores_best_effort (rt : Runtime) (clock : Clock)
    (seed : JSValue) (dimension jobId : string) (size : Z) (debug : bool) :
  (start (generateMap world rt clock seed dimension jobId size debug)).1
  = (start (generateMap (calm world) rt clock seed dimension jobId size debug)).1
  ∧ (start (generateMap8k world rt clock seed dimension jobId)).1
    = (start (generateMap8k (calm world) rt clock seed dimension jobId)).1.
Proof.
  split; run_outcomes; reflexivity.
Qed.

(** X20.  A session keeps its order.  If launch, new page, viewport or
    navigation throws, no click, page script or screenshot is made.  If one
    of them or the screenshot throws, nothing is saved; with [debug] off
    (and in the 8k-only revision) nothing is saved either when sharp
    throws. *)
Theorem session_order (rt : Runtime) (clock : Clock)
    (seed : JSValue) (dimension jobId : string) (size : Z) (debug : bool) :
  let setup := setup_calls seed dimension in
  let failed cs := is_Some (first_failure world cs) in
  let made := (start (generateMap world rt clock seed dimension jobId size debug)).2 in
  let made8k := (start (generateMap8k world rt clock seed dimension jobId)).2 in
  let '(crop, finalSize) := Screenshot.processImage_crop dimension size in
  let '(crop8k, finalSize8k) := Screenshot8k.processImage_crop dimension in
  (failed setup → count is_page_call made = 0%nat)
  ∧ (failed (setup ++ [TakeScreenshot])%list → count is_save made = 0%nat)
  ∧ (debug = false →
     failed (setup ++ [TakeScreenshot; Sharp crop finalSize])%list →
     count is_save made = 0%nat)
  ∧ (failed setup → count is_page_call made8k = 0%nat)
  ∧ (failed (setup ++ [TakeScreenshot; Sharp crop8k finalSize8k])%list →
     count is_save made8k = 0%nat).
Proof.
  cbv zeta.
  cbv [setup_calls Screenshot.processImage_crop Screenshot8k.processImage_crop].
  cbn [app]. unfold_session.
  destruct (String.eqb dimension "nether"); cbv beta iota zeta;
    repeat split; try (intros ->); follow_outcomes;
    first [ by intros [? [=]] | intros _; count_calls ].
Qed.

End SessionResults.

(** ** More on the crop geometry *)

(** In the rationals of the model [round(c + k * 62.5)] is [c] plus the
    half of [125 * k], rounded up. *)
Lemma round_offset (c k : Z) :
  Math.round (inject_Z c + inject_Z k * (125 # 2)) = c + (125 * k + 1) `div` 2.
Proof.
  unfold Math.round, Qfloor, Qplus, Qmult, inject_Z. simpl.
  pose proof (Z.div_mod (125 * k + 1) 2 ltac:(lia)) as Hsplit.
  pose proof (Z.mod_pos_bound (125 * k + 1) 2 ltac:(lia)) as Hbound.
  symmetry. apply (Z.div_unique _ _ _ (2 * ((125 * k + 1) `mod` 2))); lia.
Qed.

(** The crop of the size-parameterized revision of the model in
    integers. *)
Lemma processImage_crop_integers (dimension : string) (size : Z) :
  Screenshot.processImage_crop dimension size
  = (mkCrop (720 + (125 * (16 - size) + 1) `div` 2)
            (120 + (125 * (16 - size) + 1) `div` 2)
            (125 * size) (125 * size),
     125 * size).
Proof.
  unfold Screenshot.processImage_crop.
  by rewrite (round_offset 720), (round_offset 120), round_size_125.
Qed.

Lemma half_up_bounds (n : Z) : n ≤ 2 * ((n + 1) `div` 2) ≤ n + 1.
Proof.
  pose proof (Z.div_mod (n + 1) 2 ltac:(lia)).
  pose proof (Z.mod_pos_bound (n + 1) 2 ltac:(lia)). lia.
Qed.

(** X1.  For a size of at least 1, the crop of the size-parameterized
    revision is a non-empty rectangle inside the 3840 x 2160 viewport that
    [generateMap] sets exactly when the size is at most 16. *)
Theorem crop_fits_viewport (dimension : string) (size : Z) :
  1 ≤ size →
  inside (Screenshot.processImage_crop dimension size).1
    Pipeline.viewport_width Pipeline.viewport_height
  ↔ size ≤ 16.
Proof.
  intros Hsize. rewrite processImage_crop_integers.
  unfold inside, Pipeline.viewport_width, Pipeline.viewport_height. simpl.
  pose proof (half_up_bounds (125 * (16 - size))). lia.
Qed.

(** X2.  For every size that the doubles of the source follow exactly
    ([exact_size]: up to 2^40 in magnitude), the crop is centred on the
    point (1720, 1120) to within half a pixel, and exactly so for an even
    size. *)
Theorem crop_centred (dimension : string) (size : Z) :
  Screenshot.exact_size size = true →
  let crop := (Screenshot.processImage_crop dimension size).1 in
  0 ≤ 2 * left crop + width crop - 2 * 1720 ≤ 1
  ∧ 0 ≤ 2 * top crop + height crop - 2 * 1120 ≤ 1
  ∧ (Z.even size = true →
     2 * left crop + width crop = 2 * 1720
     ∧ 2 * top crop + height crop = 2 * 1120).
Proof.
  intros _. rewrite processImage_crop_integers. simpl.
  pose proof (half_up_bounds (125 * (16 - size))).
  split; [lia|]. split; [lia|].
  intros [h Hh]%Z.even_spec. subst size.
  replace (125 * (16 - 2 * h) + 1) with (1 + (125 * (8 - h)) * 2) by lia.
  rewrite Z.div_add by lia. change (1 `div` 2) with 0. lia.
Qed.

(** X3.  Among the sizes that the doubles of the source follow exactly
    ([exact_size]), the crop of a smaller size lies within the crop of a
    larger one. *)
Theorem crops_nested (dimension : string) (s1 s2 : Z) :
  Screenshot.exact_size s1 = true →
  Screenshot.exact_size s2 = true →
  s1 ≤ s2 →
  within (Screenshot.processImage_crop dimension s1).1
         (Screenshot.processImage_crop dimension s2).1.
Proof.
  intros _ _ Hle. rewrite !processImage_crop_integers. unfold within. simpl.
  pose proof (half_up_bounds (125 * (16 - s1))).
  pose proof (half_up_bounds (125 * (16 - s2))).
  assert ((125 * (16 - s2) + 1) `div` 2 ≤ (125 * (16 - s1) + 1) `div` 2)
    by (apply Z.div_le_mono; lia).
  lia.
Qed.

(** ** utils.js: the checks on seed, dimension and size *)

Lemma all_white_rev_app (s1 s2 : string) :
  Text.all_white (String.rev_app s1 s2) = Text.all_white s1 && Text.all_white s2.
Proof.
  revert s2. induction s1 as [|c s1 IH]; intros s2; simpl; [done|].
  rewrite IH. simpl. by destruct (JSStr.is_white_space c), (Text.all_white s1).
Qed.

Lemma all_white_trimStart (s : string) :
  Text.all_white (JSStr.trimStart s) = Text.all_white s.
Proof.
  induction s as [|c s IH]; simpl; [done|].
  destruct (JSStr.is_white_space c) eqn:Hc; simpl; [done|]. by rewrite Hc.
Qed.

Lemma trimStart_empty (s : string) :
  JSStr.trimStart s = "" ↔ Text.all_white s = true.
Proof.
  induction s as [|c s IH]; simpl; [done|].
  destruct (JSStr.is_white_space c); simpl; [done|]. split; discriminate.
Qed.

Lemma rev_app_empty (s1 s2 : string) :
  String.rev_app s1 s2 = "" ↔ s1 = "" ∧ s2 = "".
Proof.
  revert s2. induction s1 as [|c s1 IH]; intros s2; simpl.
  - split; [by intros ->|by intros [_ ->]].
  - rewrite IH. split; [by intros [_ [=]]|by intros [[=] _]].
Qed.

Lemma trim_empty (s : string) : JSStr.trim s = "" ↔ Text.all_white s = true.
Proof.
  unfold JSStr.trim, JSStr.trimEnd, String.rev.
  rewrite rev_app_empty, trimStart_empty, all_white_rev_app, all_white_trimStart.
  simpl. rewrite andb_true_r. split; [by intros [? _]|done].
Qed.

(** X4.  [isValidSeed] accepts exactly the numbers other than NaN and the
    strings that hold a code unit that is not white space. *)
Theorem isValidSeed_accepts (seed : JSValue) :
  Utils.isValidSeed seed = true
  ↔ (∃ n, seed = JSNumber n)
    ∨ (∃ s, seed = JSString s ∧ Text.all_white s = false).
Proof.
  destruct seed as [| | |n| |s|]; simpl;
    try (split; [done|by intros [[? [=]]|(? & [=] & _)]]).
  - split; [|done]. intros _. left. by exists n.
  - pose proof (trim_empty s) as Htrim.
    destruct (JSStr.trim s) as [|c t] eqn:Hs; simpl.
    + split; [done|]. intros [[? [=]]|(? & [= <-] & Hw)].
      rewrite (proj1 Htrim eq_refl) in Hw. discriminate Hw.
    + split; [|done]. intros _. right. exists s. split; [done|].
      destruct (Text.all_white s); [|done]. discriminate (proj2 Htrim eq_refl).
Qed.

Lemma toLowerCase_char_idemp (c : ascii) :
  JSStr.toLowerCase_char (JSStr.toLowerCase_char c) = JSStr.toLowerCase_char c.
Proof. by destruct c as [[] [] [] [] [] [] [] []]. Qed.

Lemma toLowerCase_idemp (s : string) :
  JSStr.toLowerCase (JSStr.toLowerCase s) = JSStr.toLowerCase s.
Proof.
  induction s as [|c s IH]; simpl; [done|].
  by rewrite toLowerCase_char_idemp, IH.
Qed.

(** X5.  What [normalizeDimension] returns is never empty and normalizes
    to itself; when [isValidDimension] accepts the value, the normalized
    name is one of the three dimensions and is accepted too. *)
Theorem normalizeDimension_idempotent (d : JSValue) (nd : string) :
  Utils.normalizeDimension d = Some nd →
  nd ≠ ""
  ∧ Utils.normalizeDimension (JSString nd) = Some nd
  ∧ (Utils.isValidDimension d = Some true →
     nd ∈ Utils.validDimensions
     ∧ Utils.isValidDimension (JSString nd) = Some true).
Proof.
  assert (Hlow : ∀ s, s ≠ "" → JSStr.toLowerCase s = s →
            Utils.normalizeDimension (JSString s) = Some s).
  { intros s Hne Hs. simpl. rewrite Hs. by destruct (String.eqb_spec s ""). }
  destruct d as [| | | | |s|]; simpl; try discriminate.
  - intros [= <-]. split; [done|]. split; [done|]. discriminate.
  - intros [= <-]. split; [done|]. split; [done|]. discriminate.
  - destruct (String.eqb_spec (JSStr.toLowerCase s) "") as [He|Hne];
      intros [= <-].
    + split; [done|]. split; [done|]. rewrite He. discriminate.
    + split; [done|]. split; [by apply Hlow, toLowerCase_idemp|].
      intros [= Hin]. rewrite toLowerCase_idemp, Hin.
      by apply bool_decide_eq_true in Hin.
Qed.

(** *** Job ids *)

Lemma no_dash_pretty_N_char (d : N) :
  Ascii.eqb (pretty_N_char d) "-" = false.
Proof. unfold pretty_N_char. by repeat case_match. Qed.

Lemma no_dash_pretty_N_go (x : N) (s : string) :
  Text.no_dash s = true → Text.no_dash (pretty_N_go x s) = true.
Proof.
  revert s. induction (N.lt_wf_0 x) as [x _ IH]. intros s Hs.
  destruct (decide (x = 0)%N) as [->|Hx]; [by rewrite pretty_N_go_0|].
  rewrite pretty_N_go_step by lia. apply IH.
  - apply N.div_lt; lia.
  - simpl. by rewrite no_dash_pretty_N_char.
Qed.

Lemma no_dash_pretty (t : Z) : 0 ≤ t → Text.no_dash (pretty t) = true.
Proof.
  destruct t as [|p|p]; [done| |lia]. intros _.
  unfold pretty, pretty_Z, pretty, pretty_positive, pretty, pretty_N.
  case_decide; [done|]. by apply no_dash_pretty_N_go.
Qed.

Lemma append_nil_l (s : string) : "" +:+ s = s.
Proof. reflexivity. Qed.

Lemma append_cons (c : ascii) (a s : string) :
  String c a +:+ s = String c (a +:+ s).
Proof. reflexivity. Qed.

Lemma append_assoc (a b c : string) : (a +:+ b) +:+ c = a +:+ b +:+ c.
Proof. induction a as [|x a IH]; [done|]. by rewrite !append_cons, IH. Qed.

Lemma no_dash_with_dash (a b : string) : Text.no_dash (a +:+ "-" +:+ b) = false.
Proof.
  induction a as [|c a IH]; [done|].
  rewrite append_cons. simpl. rewrite IH. apply andb_false_r.
Qed.

(** Two strings with a last hyphen each are equal only if both sides of
    that hyphen are. *)
Lemma split_at_last_dash (a1 a2 b1 b2 : string) :
  Text.no_dash b1 = true → Text.no_dash b2 = true →
  a1 +:+ "-" +:+ b1 = a2 +:+ "-" +:+ b2 →
  a1 = a2 ∧ b1 = b2.
Proof.
  intros Hb1 Hb2. revert a2.
  induction a1 as [|c a1 IH]; intros [|c' a2] Heq.
  - by injection Heq.
  - injection Heq as <- Heq.
    change b1 with ("" +:+ b1) in Hb1. rewrite Heq in Hb1.
    by rewrite no_dash_with_dash in Hb1.
  - injection Heq as -> Heq.
    change b2 with ("" +:+ b2) in Hb2. rewrite <- Heq in Hb2.
    by rewrite no_dash_with_dash in Hb2.
  - injection Heq as <- Heq. by destruct (IH a2 Heq) as [-> ->].
Qed.

Lemma validDimensions_no_dash (d : string) :
  d ∈ Utils.validDimensions → Text.no_dash d = true.
Proof.
  unfold Utils.validDimensions. rewrite !elem_of_cons, elem_of_nil.
  intros [->|[->|[->|[]]]]; done.
Qed.

(** X6.  For dimensions among the three names and timestamps that are not
    negative, two job ids are equal only if the seeds print alike, the
    dimensions are equal and the timestamps are equal. *)
Theorem generateJobId_injective (seed1 seed2 : JSValue) (d1 d2 : string) (t1 t2 : Z) :
  d1 ∈ Utils.validDimensions → d2 ∈ Utils.validDimensions →
  0 ≤ t1 → 0 ≤ t2 →
  Utils.generateJobId seed1 d1 t1 = Utils.generateJobId seed2 d2 t2 →
  ToString seed1 = ToString seed2 ∧ d1 = d2 ∧ t1 = t2.
Proof.
  intros Hd1 Hd2 Ht1 Ht2. unfold Utils.generateJobId. intros Heq.
  apply String.app_inj in Heq.
  pose proof (split_at_last_dash (ToString seed1 +:+ "-" +:+ d1)
                (ToString seed2 +:+ "-" +:+ d2) (pretty t1) (pretty t2)
                (no_dash_pretty t1 Ht1) (no_dash_pretty t2 Ht2)) as Hlast.
  destruct Hlast as [Hfront Htime].
  { by rewrite !append_assoc. }
  apply split_at_last_dash in Hfront as [Hseed Hdim];
    [|by apply validDimensions_no_dash..].
  split; [done|]. split; [done|]. by apply pretty_Z_inj in Htime.
Qed.

(** *** Sizes written as text *)

Lemma pretty_N_go_app (x : N) (s : string) :
  pretty_N_go x s = pretty_N_go x "" +:+ s.
Proof.
  revert s. induction (N.lt_wf_0 x) as [x _ IH]. intros s.
  destruct (decide (x = 0)%N) as [->|Hx]; [by rewrite !pretty_N_go_0|].
  rewrite !(pretty_N_go_step x) by lia.
  rewrite (IH (x `div` 10)%N) by (apply N.div_lt; lia).
  rewrite (IH (x `div` 10)%N ltac:(apply N.div_lt; lia) (String _ "")).
  by rewrite append_assoc.
Qed.

Lemma parse_digits_stops (v : Z) (rest : string) :
  Text.stops_decimal rest = true →
  JSStr.parse_digits 10 (Some v) rest = Some v.
Proof.
  destruct rest as [|c rest]; [done|]. simpl.
  destruct (JSStr.digit_value c) as [d|]; [|done].
  intros Hd%Z.leb_le. by destruct (Z.ltb_spec d 10); [lia|].
Qed.

Lemma parseInt_pretty_N_go_rest (x : N) (sign : bool) (rest : string) :
  (0 < x)%N →
  Text.stops_decimal rest = true →
  JSStr.parseInt ((if sign then "-" else "") +:+ pretty_N_go x rest)
  = Some (if sign then - Z.of_N x else Z.of_N x).
Proof.
  intros Hx Hrest.
  destruct (parse_digits_pretty_N_go x Hx) as (k & _ & Hparse).
  destruct (pretty_N_go_head x rest Hx) as (d & r & Hhead & Hd).
  assert (JSStr.parseInt ((if sign then "-" else "") +:+ pretty_N_go x rest)
          = (λ n, (if sign then -1 else 1) * n)
              <$> JSStr.parse_digits 10 None (pretty_N_go x rest)) as ->.
  { rewrite Hhead.
    assert (d ∈ [1; 2; 3; 4; 5; 6; 7; 8; 9]%N) as Hcases
      by (rewrite !elem_of_cons; lia).
    rewrite !elem_of_cons, elem_of_nil in Hcases.
    repeat (destruct Hcases as [->|Hcases]; [by destruct sign|]). done. }
  rewrite Hparse, parse_digits_stops by done. simpl. f_equal. destruct sign; lia.
Qed.

Lemma parseInt_decimal_prefix (n : Z) (rest : string) :
  n ≠ 0 →
  Text.stops_decimal rest = true →
  JSStr.parseInt (pretty n +:+ rest) = Some n.
Proof.
  intros Hn Hrest. destruct n as [|p|p]; [done|..].
  - unfold pretty, pretty_Z, pretty, pretty_positive, pretty, pretty_N.
    case_decide; [done|]. rewrite <- pretty_N_go_app.
    apply (parseInt_pretty_N_go_rest (N.pos p) false); [lia|done].
  - unfold pretty, pretty_Z, pretty, pretty_positive, pretty, pretty_N.
    case_decide; [done|]. rewrite append_assoc, <- pretty_N_go_app.
    apply (parseInt_pretty_N_go_rest (N.pos p) true); [lia|done].
Qed.

(** X7.  [isValidSize] refuses a missing size ([undefined]), [null], NaN
    and the booleans; and a string that starts with the decimal digits of
    an integer other than 0, followed by nothing or by a code unit that is
    no decimal digit, is accepted exactly when that integer lies from 2 to
    16. *)
Theorem isValidSize_accepts :
  (∀ size, size ∈ [JSUndefined; JSNull; JSNaN; JSBool true; JSBool false] →
     Utils.isValidSize size = false)
  ∧ (∀ (n : Z) (rest : string),
       n ≠ 0 →
       Text.stops_decimal rest = true →
       Utils.isValidSize (JSString (pretty n +:+ rest)) = true ↔ 2 ≤ n ≤ 16).
Proof.
  split.
  - intros size Hsize. rewrite !elem_of_cons, elem_of_nil in Hsize.
    destruct Hsize as [->|[->|[->|[->|[->|[]]]]]]; reflexivity.
  - intros n rest Hn Hrest. unfold Utils.isValidSize. simpl.
    rewrite parseInt_decimal_prefix by done.
    by rewrite andb_true_iff, !Z.leb_le.
Qed.

(** ** More on the endpoints of server.js *)

Section EndpointProperties.

Import Server.

Context (rt : Runtime) (screenshot : Revision).

Implicit Types (st : State) (body : JSObj) (ev : Event).

Lemma is_string_true (v : JSValue) (text : string) :
  is_string v text = true ↔ v = JSString text.
Proof.
  destruct v as [| | | | |s|]; simpl; try (split; [done|by intros [=]]).
  rewrite String.eqb_eq. split; [by intros ->|by intros [= ->]].
Qed.

(** X8.  Every answer of [POST /api/generate] is of one of two kinds.
    Either it is 200 with [success: true] and status [processing], the
    counter was below the ceiling and is one higher, the job of the returned
    id is [processing] and no other record changed; or the state is
    untouched and the answer has [success: false], [retryable: false],
    [jobId: null] and one of the pairs 400 INVALID_SEED, 400
    INVALID_DIMENSION, 429 TOO_MANY_JOBS, 500 SERVER_ERROR. *)
Theorem post_generate_answers body now created st :
  let answer := post_generate rt body now created st in
  (statusCode answer.1 = 200
   ∧ prop (json answer.1) "success" = JSBool true
   ∧ prop (json answer.1) "status" = JSString "processing"
   ∧ activeJobs st < MAX_CONCURRENT_JOBS rt
   ∧ activeJobs answer.2 = activeJobs st + 1
   ∧ ∃ jobId,
       prop (json answer.1) "jobId" = JSString jobId
       ∧ status_of answer.2 jobId = Some (JSString "processing")
       ∧ ∀ other, other ≠ jobId → jobs answer.2 !! other = jobs st !! other)
  ∨ (answer.2 = st
     ∧ prop (json answer.1) "success" = JSBool false
     ∧ prop (json answer.1) "retryable" = JSBool false
     ∧ prop (json answer.1) "jobId" = JSNull
     ∧ (statusCode answer.1, prop (json answer.1) "error")
       ∈ [(400, JSString "INVALID_SEED"); (400, JSString "INVALID_DIMENSION");
          (429, JSString "TOO_MANY_JOBS"); (500, JSString "SERVER_ERROR")]).
Proof.
  intros answer. subst answer. unfold post_generate.
  destruct (Utils.isValidSeed _); simpl.
  2:{ right. repeat split. rewrite !elem_of_cons. auto. }
  destruct (Utils.isValidDimension _) as [[]|] eqn:Hdim.
  3:{ right. repeat split. rewrite !elem_of_cons. auto 10. }
  2:{ right. repeat split. rewrite !elem_of_cons. auto. }
  destruct (Z.leb_spec (MAX_CONCURRENT_JOBS rt) (activeJobs st)).
  { right. repeat split. rewrite !elem_of_cons. auto. }
  destruct (normalizeDimension_valid _ Hdim) as (nd & -> & _).
  left. split; [done|]. split; [done|]. split; [done|]. split; [done|].
  split; [done|]. eexists. split; [done|]. split.
  - apply status_of_insert.
  - intros other Hother. simpl. by rewrite lookup_insert_ne.
Qed.

(** *** The status query *)

(** X9.  [GET /api/status/:jobId] answers 404 JOB_NOT_FOUND for an
    unknown job, leaving the state as it is, and 200 with the job id and the
    status on record for a known one; it never changes the counter, the
    promises in flight or the status of any job. *)
Theorem get_status_reads_only (jobId : string) (file : option (string * JSValue)) st :
  let answer := get_status jobId file st in
  match jobs st !! jobId with
  | None =>
      statusCode answer.1 = 404
      ∧ prop (json answer.1) "error" = JSString "JOB_NOT_FOUND"
      ∧ answer.2 = st
  | Some job =>
      statusCode answer.1 = 200
      ∧ prop (json answer.1) "jobId" = JSString jobId
      ∧ prop (json answer.1) "status" = prop job "status"
  end
  ∧ activeJobs answer.2 = activeJobs st
  ∧ inFlight answer.2 = inFlight st
  ∧ ∀ other, status_of answer.2 other = status_of st other.
Proof.
  intros answer. subst answer. split.
  - unfold get_status. destruct (jobs st !! jobId) as [job|]; [|done].
    split; [done|]. simpl.
    by destruct (is_string (prop job "status") "ready"),
          (is_string (prop job "status") "processing"),
          (is_string (prop job "status") "failed").
  - destruct (get_status_counters jobId file st) as [-> ->].
    split; [done|]. split; [done|]. intros other. apply get_status_status.
Qed.


(** X10.  The answer for a known job shows [progress] exactly when the job
    is [processing], [imageUrl] and [metadata] exactly when it is [ready],
    and [error], [message] and [retryable] exactly when it is [failed], with
    the values on record. *)
Theorem get_status_exposes_by_status (jobId : string)
    (file : option (string * JSValue)) st (job : JSObj) :
  jobs st !! jobId = Some job →
  let answer := json (get_status jobId file st).1 in
  let shown (key : string) := is_Some (answer !! key) in
  (shown "progress" ↔ prop job "status" = JSString "processing")
  ∧ (shown "imageUrl" ↔ prop job "status" = JSString "ready")
  ∧ (shown "metadata" ↔ prop job "status" = JSString "ready")
  ∧ (shown "error" ↔ prop job "status" = JSString "failed")
  ∧ (shown "message" ↔ prop job "status" = JSString "failed")
  ∧ (shown "retryable" ↔ prop job "status" = JSString "failed")
  ∧ (prop job "status" = JSString "failed" →
     prop answer "error" = prop job "error"
     ∧ prop answer "message" = prop job "message"
     ∧ prop answer "retryable" = prop job "retryable")
  ∧ (prop job "status" = JSString "processing" →
     prop answer "progress" = prop job "progress").
Proof.
  intros Hjob answer shown. subst answer shown. cbv beta.
  unfold get_status. rewrite Hjob. cbv zeta.
  rewrite <- !(is_string_true (prop job "status")).
  destruct (is_string (prop job "status") "ready") eqn:Hready.
  { apply is_string_true in Hready as Hstatus. rewrite Hstatus. simpl.
    repeat split; try done; try (by intros [? [=]]); by eexists. }
  destruct (is_string (prop job "status") "processing") eqn:Hprocessing.
  { apply is_string_true in Hprocessing as Hstatus. rewrite Hstatus. simpl.
    repeat split; try done; try (by intros [? [=]]); by eexists. }
  destruct (is_string (prop job "status") "failed") eqn:Hfailed.
  { apply is_string_true in Hfailed as Hstatus. rewrite Hstatus. simpl.
    repeat split; try done; try (by intros [? [=]]); by eexists. }
  simpl. repeat split; try done; by intros [? [=]].
Qed.

Lemma prop_insert_eq (o : JSObj) (k : string) (v : JSValue) :
  prop (<[k := v]> o) k = v.
Proof. unfold prop. by rewrite lookup_insert_eq. Qed.

Lemma prop_insert_ne (o : JSObj) (k k' : string) (v : JSValue) :
  k ≠ k' → prop (<[k := v]> o) k' = prop o k'.
Proof. intros. unfold prop. by rewrite lookup_insert_ne. Qed.

(** X11.  Asking for the status again, with the same answer of the file
    system, gives the same response and changes nothing further. *)
Theorem get_status_idempotent (jobId : string) (file : option (string * JSValue)) st :
  get_status jobId file (get_status jobId file st).2 = get_status jobId file st.
Proof.
  unfold get_status at 2 3.
  destruct (jobs st !! jobId) as [job0|] eqn:Hjob0.
  2:{ simpl. unfold get_status. by rewrite Hjob0. }
  cbv zeta. cbn [fst snd]. unfold get_status. cbn [jobs activeJobs inFlight].
  rewrite lookup_insert_eq. cbv zeta.
  destruct (is_string (prop job0 "status") "ready"
            && truthy (prop job0 "filename")) eqn:Hcond.
  2:{ by rewrite Hcond, insert_insert_eq. }
  destruct file as [[sizeFormatted created]|].
  2:{ by rewrite Hcond, insert_insert_eq. }
  rewrite !(prop_insert_ne _ "metadata" "status") by done.
  rewrite !(prop_insert_ne _ "metadata" "filename") by done.
  rewrite Hcond, !prop_insert_eq. cbn [own_props].
  rewrite !insert_insert_eq. unfold spread.
  set (new := ({[ "fileSize" := JSString sizeFormatted;
                  "created" := created ]} : JSObj)).
  assert (new ∪ (new ∪ own_props (prop job0 "metadata"))
          = new ∪ own_props (prop job0 "metadata")) as ->
    by (by rewrite (assoc_L (∪)), (idemp_L (∪) new)).
  done.
Qed.


(** *** Cleanup *)

(** X12.  [POST /api/cleanup] keeps exactly the records its test does not
    find expired: a job that is [processing], whose [createdAt] does not
    parse, or that is at most 24 hours old stays.  It touches neither the
    counter nor the promises, and reports a count of removed records that
    is not negative and adds up with the remaining ones to the former
    total. *)
Theorem post_cleanup_removes_only_expired (now : Z) st :
  let answer := post_cleanup rt now st in
  activeJobs answer.2 = activeJobs st
  ∧ inFlight answer.2 = inFlight st
  ∧ (∀ jobId job,
       jobs answer.2 !! jobId = Some job
       ↔ jobs st !! jobId = Some job ∧ expired rt now job = false)
  ∧ (∀ jobId job,
       jobs st !! jobId = Some job →
       prop job "status" = JSString "processing"
       ∨ getTime rt (prop job "createdAt") = None
       ∨ (∃ createdAt, getTime rt (prop job "createdAt") = Some createdAt
                       ∧ now - createdAt ≤ 86400000) →
       jobs answer.2 !! jobId = Some job)
  ∧ (∃ cleaned,
       prop (json answer.1) "cleanedCount" = JSNumber cleaned
       ∧ prop (json answer.1) "remainingJobs"
         = JSNumber (Z.of_nat (size (jobs answer.2)))
       ∧ 0 ≤ cleaned
       ∧ cleaned + Z.of_nat (size (jobs answer.2)) = Z.of_nat (size (jobs st))).
Proof.
  intros answer. subst answer. split; [done|]. split; [done|].
  assert (Hkept : ∀ jobId job,
    jobs (post_cleanup rt now st).2 !! jobId = Some job
    ↔ jobs st !! jobId = Some job ∧ expired rt now job = false).
  { intros jobId job. unfold post_cleanup. simpl.
    by rewrite map_lookup_filter_Some. }
  split; [exact Hkept|]. split.
  - intros jobId job Hjob Hwhy. apply Hkept. split; [done|].
    unfold expired.
    destruct Hwhy as [Hstatus|[->|(createdAt & -> & Hyoung)]]; [|done|].
    + rewrite Hstatus. by destruct (getTime _ _); [rewrite andb_false_r|].
    + destruct (Z.ltb_spec (24 * 60 * 60 * 1000) (now - createdAt)); [lia|done].
  - eexists. split; [reflexivity|]. split; [reflexivity|].
    assert (size (jobs (post_cleanup rt now st).2) ≤ size (jobs st))%nat.
    { apply map_subseteq_size. unfold post_cleanup. simpl.
      apply map_filter_subseteq. }
    unfold post_cleanup in *. simpl in *. lia.
Qed.

(** X13.  A second cleanup at the same instant removes nothing and reports
    [cleanedCount: 0]. *)
Theorem post_cleanup_idempotent (now : Z) st :
  (post_cleanup rt now (post_cleanup rt now st).2).2 = (post_cleanup rt now st).2
  ∧ prop (json (post_cleanup rt now (post_cleanup rt now st).2).1) "cleanedCount"
    = JSNumber 0.
Proof.
  assert (Hsame :
    filter (λ entry : string * JSObj, expired rt now entry.2 = false)
      (jobs (post_cleanup rt now st).2)
    = jobs (post_cleanup rt now st).2).
  { apply map_filter_id. intros jobId job Hjob.
    unfold post_cleanup in Hjob. simpl in Hjob.
    by apply map_lookup_filter_Some in Hjob as [_ Hkeep]. }
  split.
  - unfold post_cleanup at 1. cbn [snd]. by rewrite Hsame.
  - unfold post_cleanup at 1. cbn [fst json]. rewrite Hsame.
    unfold prop, Utils.createSuccessResponse, spread.
    erewrite lookup_union_Some_l; [|reflexivity]. simpl. f_equal. lia.
Qed.

(** *** Statistics *)

Lemma statuses_known_step ev st st' :
  Monitor.statuses_known st →
  exec rt screenshot ev st = Some st' →
  Monitor.statuses_known st'.
Proof.
  intros Hknown Hexec jobId job.
  assert (Hprocessing :
    JSString "processing" ∈ JSString <$> ["processing"; "ready"; "failed"])
    by (simpl; rewrite !elem_of_cons; auto).
  assert (Hterminal : ∀ o,
    JSString (outcome_status o) ∈ JSString <$> ["processing"; "ready"; "failed"])
    by (intros []; simpl; rewrite !elem_of_cons; auto).
  destruct ev as [body now created|k o c|k m c|j file|now]; simpl in Hexec.
  - injection Hexec as <-.
    destruct (post_generate_outcome rt body now created st)
      as [->|(jobId' & record & p & _ & Hstatus & _ & ->)]; [apply Hknown|].
    simpl. destruct (decide (jobId' = jobId)) as [->|Hne].
    + rewrite lookup_insert_eq. intros [= <-]. by rewrite Hstatus.
    + rewrite lookup_insert_ne by done. apply Hknown.
  - destruct (inFlight st !! k) as [p|]; [|done]. injection Hexec as <-.
    simpl. destruct (decide (p_jobId p = jobId)) as [->|Hne].
    + rewrite lookup_insert_eq. intros [= <-].
      rewrite prop_insert_ne by done. unfold prop, spread.
      erewrite lookup_union_Some_l; [|apply generateMap_status]. apply Hterminal.
    + rewrite lookup_insert_ne by done. apply Hknown.
  - destruct (inFlight st !! k) as [p|]; [|done]. injection Hexec as <-.
    simpl. destruct (decide (p_jobId p = jobId)) as [->|Hne].
    + rewrite lookup_insert_eq. intros [= <-]. unfold prop, spread.
      erewrite lookup_union_Some_l; [|reflexivity].
      simpl. rewrite !elem_of_cons. auto.
    + rewrite lookup_insert_ne by done. apply Hknown.
  - injection Hexec as <-. intros Hjob.
    pose proof (get_status_status j file st jobId) as Hsame.
    unfold status_of in Hsame. rewrite Hjob in Hsame. simpl in Hsame.
    destruct (jobs st !! jobId) as [job0|] eqn:Hjob0; [|done].
    injection Hsame as ->. by apply (Hknown jobId job0).
  - injection Hexec as <-. unfold post_cleanup. simpl.
    intros [Hjob _]%map_lookup_filter_Some. by apply (Hknown jobId).
Qed.

Lemma reachable_statuses_known st :
  reachable rt screenshot st → Monitor.statuses_known st.
Proof.
  induction 1 as [|st ev st' _ IH Hexec]; [done|].
  by apply (statuses_known_step ev st st').
Qed.

(** The records split by status, when every status is one of the three. *)
Lemma count_status_partition st :
  Monitor.statuses_known st →
  Z.of_nat (size (jobs st))
  = Monitor.count_status st "ready" + Monitor.count_status st "failed"
    + Monitor.count_status st "processing".
Proof.
  unfold Monitor.statuses_known, Monitor.count_status.
  generalize (jobs st). clear st. intros m.
  induction m as [|jobId job m Hfresh IH] using map_ind; intros Hknown.
  { by rewrite !map_filter_empty, !map_size_empty. }
  rewrite map_size_insert_None by done.
  rewrite Nat2Z.inj_succ, IH.
  2:{ intros j x Hj. apply (Hknown j).
      rewrite lookup_insert_ne; [done|]. intros ->. by rewrite Hfresh in Hj. }
  pose proof (Hknown jobId job (lookup_insert_eq _ _ _)) as Hstatus.
  simpl in Hstatus. rewrite !elem_of_cons, elem_of_nil in Hstatus.
  assert (Hstep : ∀ status,
    size (filter (λ entry : string * JSObj,
                    is_string (prop entry.2 "status") status = true)
            (<[jobId := job]> m))
    = ((if is_string (prop job "status") status then 1 else 0)
       + size (filter (λ entry : string * JSObj,
                         is_string (prop entry.2 "status") status = true) m))%nat).
  { intros status. destruct (is_string (prop job "status") status) eqn:Hs.
    - rewrite map_filter_insert_True by done.
      rewrite map_size_insert_None; [done|].
      by rewrite map_lookup_filter_None; left.
    - rewrite map_filter_insert_not'; [done|by simpl; rewrite Hs|].
      intros y Hy. by rewrite Hfresh in Hy. }
  rewrite !Hstep.
  destruct Hstatus as [->|[->|[->|[]]]]; simpl; lia.
Qed.

(** X14.  In every state the server can reach, [GET /api/stats] reports
    [totalJobs = completedJobs + failedJobs + processingJobs]: every record
    is [processing], [ready] or [failed]. *)
Theorem stats_add_up st :
  reachable rt screenshot st →
  ∃ total completed failed processing,
    prop (json (Monitor.get_stats rt st)) "totalJobs" = JSNumber total
    ∧ prop (json (Monitor.get_stats rt st)) "completedJobs" = JSNumber completed
    ∧ prop (json (Monitor.get_stats rt st)) "failedJobs" = JSNumber failed
    ∧ prop (json (Monitor.get_stats rt st)) "processingJobs" = JSNumber processing
    ∧ 0 ≤ completed ∧ 0 ≤ failed ∧ 0 ≤ processing
    ∧ total = completed + failed + processing.
Proof.
  intros Hreach. eexists _, _, _, _.
  split; [reflexivity|]. split; [reflexivity|]. split; [reflexivity|].
  split; [reflexivity|].
  unfold Monitor.count_status. split; [lia|]. split; [lia|]. split; [lia|].
  by apply count_status_partition, reachable_statuses_known.
Qed.


Lemma processing_in_flight_step ev st st' :
  Monitor.processing_in_flight st →
  exec rt screenshot ev st = Some st' →
  Monitor.processing_in_flight st'.
Proof.
  intros Hflight Hexec jobId job.
  assert (Hstays : ∀ k p,
    inFlight st !! k = Some p → p_jobId p ≠ jobId →
    jobId ∈ p_jobId <$> inFlight st →
    jobId ∈ p_jobId <$> delete k (inFlight st)).
  { intros k p Hk Hne (p' & -> & [k' Hk']%list_elem_of_lookup)%list_elem_of_fmap.
    apply list_elem_of_fmap. exists p'. split; [done|].
    apply list_elem_of_lookup.
    assert (k' ≠ k) by (intros ->; rewrite Hk in Hk'; by injection Hk' as ->).
    destruct (decide (k' < k)%nat).
    - exists k'. by rewrite list_lookup_delete_lt.
    - exists (pred k'). rewrite list_lookup_delete_ge by lia.
      by replace (S (pred k')) with k' by lia. }
  destruct ev as [body now created|k o c|k m c|j file|now]; simpl in Hexec.
  - injection Hexec as <-.
    destruct (post_generate_outcome rt body now created st)
      as [->|(jobId' & record & p & _ & _ & Hp & ->)]; [apply Hflight|].
    simpl. rewrite fmap_app, elem_of_app. simpl.
    destruct (decide (jobId' = jobId)) as [->|Hne].
    + intros _ _. right. rewrite Hp. apply list_elem_of_here.
    + rewrite lookup_insert_ne by done. intros Hjob Hstatus. left.
      by apply (Hflight jobId job).
  - destruct (inFlight st !! k) as [p|] eqn:Hk; [|done]. injection Hexec as <-.
    simpl. destruct (decide (p_jobId p = jobId)) as [->|Hne].
    + rewrite lookup_insert_eq. intros [= <-].
      rewrite prop_insert_ne by done. unfold prop, spread.
      erewrite lookup_union_Some_l; [|apply generateMap_status].
      simpl. by destruct o.
    + rewrite lookup_insert_ne by done. intros Hjob Hstatus.
      apply (Hstays k p Hk Hne). by apply (Hflight jobId job).
  - destruct (inFlight st !! k) as [p|] eqn:Hk; [|done]. injection Hexec as <-.
    simpl. destruct (decide (p_jobId p = jobId)) as [->|Hne].
    + rewrite lookup_insert_eq. intros [= <-]. unfold prop, spread.
      by erewrite lookup_union_Some_l; [|reflexivity].
    + rewrite lookup_insert_ne by done. intros Hjob Hstatus.
      apply (Hstays k p Hk Hne). by apply (Hflight jobId job).
  - injection Hexec as <-. intros Hjob Hstatus.
    destruct (get_status_counters j file st) as [_ ->].
    pose proof (get_status_status j file st jobId) as Hsame.
    unfold status_of in Hsame. rewrite Hjob in Hsame. simpl in Hsame.
    destruct (jobs st !! jobId) as [job0|] eqn:Hjob0; [|done].
    injection Hsame as Hsame. apply (Hflight jobId job0 Hjob0). congruence.
  - injection Hexec as <-. unfold post_cleanup. simpl.
    intros [Hjob _]%map_lookup_filter_Some. by apply (Hflight jobId).
Qed.

Lemma reachable_processing_in_flight st :
  reachable rt screenshot st → Monitor.processing_in_flight st.
Proof.
  induction 1 as [|st ev st' _ IH Hexec]; [done|].
  by apply (processing_in_flight_step ev st st').
Qed.

Lemma size_list_to_set_le (l : list string) :
  (size (list_to_set l : gset string) ≤ length l)%nat.
Proof.
  induction l as [|x l IH]; [by rewrite list_to_set_nil, size_empty|].
  rewrite list_to_set_cons, size_union_alt, size_singleton. simpl.
  pose proof (subseteq_size (list_to_set l ∖ {[x]}) (list_to_set l : gset string)
                ltac:(by apply subseteq_difference_l)).
  lia.
Qed.

(** X15.  In every state the server can reach, the statistics never show
    more [processingJobs] than [activeJobs], the health check shows the same
    [activeJobs], and with a positive ceiling [activeJobs] is at most
    [maxConcurrentJobs]. *)
Theorem stats_processing_within_active st :
  reachable rt screenshot st →
  ∃ processing active,
    prop (json (Monitor.get_stats rt st)) "processingJobs" = JSNumber processing
    ∧ prop (json (Monitor.get_stats rt st)) "activeJobs" = JSNumber active
    ∧ (∀ now, prop (json (Monitor.get_health rt now st)) "activeJobs"
              = JSNumber active)
    ∧ 0 ≤ processing ≤ active
    ∧ (0 < MAX_CONCURRENT_JOBS rt →
       prop (json (Monitor.get_stats rt st)) "maxConcurrentJobs"
       = JSNumber (MAX_CONCURRENT_JOBS rt)
       ∧ active ≤ MAX_CONCURRENT_JOBS rt).
Proof.
  intros Hreach. eexists _, _.
  split; [reflexivity|]. split; [reflexivity|]. split; [reflexivity|].
  destruct (reachable_counter_inv rt screenshot st Hreach) as [Hlen Hmax].
  pose proof (reachable_processing_in_flight st Hreach) as Hflight.
  split; [|intros Hpos; split; [reflexivity|lia]].
  unfold Monitor.count_status. split; [lia|]. rewrite Hlen.
  apply Nat2Z.inj_le.
  rewrite <- (size_dom (D := gset string)).
  etrans; [|etrans; [apply (size_list_to_set_le (p_jobId <$> inFlight st))|]].
  - apply subseteq_size. intros jobId [job Hjob]%elem_of_dom.
    apply map_lookup_filter_Some in Hjob as [Hjob Hstatus].
    apply elem_of_list_to_set. apply (Hflight jobId job Hjob).
    by apply is_string_true.
  - by rewrite length_fmap.
Qed.

(** *** A render that succeeds *)

(** What [generateMap] reports after a capture, in either revision. *)
Lemma generateMap_captured (p : Pending) (processedLength savedAt generatedAt : Z) :
  let result :=
    generateMap rt screenshot p (Captured processedLength savedAt generatedAt) in
  let filename :=
    "seed-" +:+ ToString (p_seed p) +:+ "-" +:+ p_dimension p +:+ "-"
    +:+ (match screenshot with Rev8k => "" | RevSized => "8k-" end)
    +:+ pretty savedAt +:+ ".png" in
  result !! "imageUrl" = Some (JSString (Storage.getImageUrl rt filename))
  ∧ result !! "filename" = Some (JSString filename)
  ∧ ∃ metadata,
      result !! "metadata" = Some (JSObject metadata)
      ∧ metadata !! "dimensions" = Some (JSString "1000x1000")
      ∧ metadata !! "fileSize"
        = Some (JSString (Pipeline.kilobytes processedLength))
      ∧ metadata !! "created" = None.
Proof.
  destruct screenshot; simpl; (split; [done|]); (split; [done|]);
    eexists; (split; [reflexivity|]); repeat split; reflexivity.
Qed.

(** X16.  When the promise of a job resolves after a capture, the counter
    goes down by one, the job is [ready], and the status endpoint, whatever
    the file system answers for the image, answers 200 with status [ready],
    the image URL built by [getImageUrl] from the file name of the revision
    at hand ([seed-<seed>-<dimension>-], [8k-] in the size-parameterized
    revision, the time of saving, [.png]) and the dimensions 1000x1000, and
    shows neither [progress] nor [error].  When the image is there, the
    metadata shows the file size and the creation time that the file system
    reports; when it is not, the file size that [generateMap] computed. *)
Theorem fulfilled_job_is_served (k : nat) (p : Pending)
    (processedLength savedAt generatedAt completed : Z) st st'
    (file : option (string * JSValue)) :
  inFlight st !! k = Some p →
  exec rt screenshot
    (Fulfil k (Captured processedLength savedAt generatedAt) completed) st
  = Some st' →
  let filename :=
    "seed-" +:+ ToString (p_seed p) +:+ "-" +:+ p_dimension p +:+ "-"
    +:+ (match screenshot with Rev8k => "" | RevSized => "8k-" end)
    +:+ pretty savedAt +:+ ".png" in
  let answer := (get_status (p_jobId p) file st').1 in
  let metadata := own_props (prop (json answer) "metadata") in
  activeJobs st' = activeJobs st - 1
  ∧ status_of st' (p_jobId p) = Some (JSString "ready")
  ∧ statusCode answer = 200
  ∧ prop (json answer) "status" = JSString "ready"
  ∧ prop (json answer) "imageUrl" = JSString (Storage.getImageUrl rt filename)
  ∧ prop metadata "dimensions" = JSString "1000x1000"
  ∧ json answer !! "progress" = None
  ∧ json answer !! "error" = None
  ∧ match file with
    | Some (sizeFormatted, created) =>
        prop metadata "fileSize" = JSString sizeFormatted
        ∧ prop metadata "created" = created
    | None =>
        prop metadata "fileSize"
        = JSString (Pipeline.kilobytes processedLength)
        ∧ metadata !! "created" = None
    end.
Proof.
  intros Hk Hexec filename answer metadata. simpl in Hexec. rewrite Hk in Hexec.
  injection Hexec as <-. subst answer metadata.
  split; [done|].
  destruct (generateMap_captured p processedLength savedAt generatedAt)
    as (Himage & Hfile & meta & Hmeta & Hdims & Hsize & Hcreated).
  fold filename in Himage, Hfile.
  set (result := generateMap rt screenshot p
                   (Captured processedLength savedAt generatedAt)) in *.
  assert (Hjob : ∃ job,
    jobs (on_fulfilled rt (p_jobId p) result completed (settle k st))
      !! p_jobId p = Some job
    ∧ prop job "status" = JSString "ready"
    ∧ prop job "imageUrl" = JSString (Storage.getImageUrl rt filename)
    ∧ prop job "metadata" = JSObject meta
    ∧ prop job "filename" = JSString filename).
  { eexists. split; [apply lookup_insert_eq|].
    rewrite !prop_insert_ne by done. unfold prop, spread.
    repeat split.
    - by erewrite lookup_union_Some_l; [|apply generateMap_status].
    - by erewrite lookup_union_Some_l.
    - by erewrite lookup_union_Some_l.
    - by erewrite lookup_union_Some_l. }
  destruct Hjob as (job & Hjob & Hstatus & Hurl & Hmetadata & Hfilename).
  split; [by unfold status_of; rewrite Hjob; simpl; rewrite Hstatus|].
  unfold get_status. rewrite Hjob. cbv zeta. rewrite Hstatus, Hfilename.
  cbn [is_string truthy].
  change (String.eqb "ready" "ready") with true.
  change (String.eqb "ready" "processing") with false.
  change (String.eqb "ready" "failed") with false.
  assert (String.eqb filename "" = false) as -> by reflexivity.
  cbn [negb andb fst statusCode json].
  split; [done|]. split; [done|].
  destruct file as [[sizeFormatted created]|].
  - rewrite prop_insert_ne by done. rewrite prop_insert_eq, Hurl, Hmetadata.
    cbn [own_props].
    set (refreshed := spread meta _).
    match goal with
    | |- context [prop ?r "metadata"] =>
        assert (prop r "metadata" = JSObject refreshed) as -> by reflexivity
    end.
    cbn [own_props]. subst refreshed. unfold spread.
    repeat split; try done.
    + unfold prop at 1. by rewrite lookup_union_r, Hdims.
    + unfold prop at 1. by erewrite lookup_union_Some_l.
    + unfold prop at 1. by erewrite lookup_union_Some_l.
  - rewrite Hurl, Hmetadata.
    match goal with
    | |- context [prop ?r "metadata"] =>
        assert (prop r "metadata" = JSObject meta) as -> by reflexivity
    end.
    cbn [own_props]. unfold prop at 2 3. rewrite Hdims, Hsize.
    repeat split; done.
Qed.
End EndpointProperties.

(** ** Failed jobs and the [retryable] flag *)

Section FailedJobs.
Import Server.
Context (rt : Runtime) (screenshot : Revision).
Implicit Types (st : State) (body : JSObj) (ev : Event).






End FailedJobs.


(** ** The image listing of storage.js *)

Section ListingProperties.

Import Listing.

Context (formatFileSize : Z → string).

Example is_image_samples :
  map is_image ["seed-1-end-8k-5.png"; "A.PNG"; "b.Jpeg"; "c.jpg"; "png";
                ".gitkeep"; "d.png.tmp"; ""]
  = [true; true; true; true; false; false; false; false].
Proof. vm_compute. reflexivity. Qed.

Lemma fold_left_sizes (imgs : list JSObj) (start : Z) :
  fold_left (λ sum img, sum + size_or_zero img) imgs start
  = start + foldr (λ img sum, size_or_zero img + sum) 0 imgs.
Proof.
  revert start. induction imgs as [|img imgs IH]; intros start; simpl; [lia|].
  rewrite IH. lia.
Qed.

(** X21.  [getStorageInfo] lists, in the order of the directory, exactly
    the entries whose name ends in .png, .jpg or .jpeg in any case;
    [totalFiles] is their number, whether or not [fs.stat] succeeds on them,
    and [totalSizeBytes] is the sum of the sizes of those it succeeds on.
    When the directory cannot be read the listing is empty and both totals
    are 0. *)
Theorem listing_counts_image_files (disk : Disk) :
  let info := getStorageInfo formatFileSize disk in
  let files := default [] (entries disk) in
  let image_files := List.filter is_image files in
  let stat_size file := from_option size 0 (stat disk file) in
  images info = listImages formatFileSize disk
  ∧ map (λ img, prop img "filename") (images info) = map JSString image_files
  ∧ totalFiles info = Z.of_nat (length image_files)
  ∧ totalSizeBytes info = foldr (λ file sum, stat_size file + sum) 0 image_files
  ∧ totalSizeFormatted info = formatFileSize (totalSizeBytes info)
  ∧ (entries disk = None →
     images info = [] ∧ totalFiles info = 0 ∧ totalSizeBytes info = 0).
Proof.
  intros info files image_files stat_size. subst info files image_files.
  unfold getStorageInfo, listImages.
  cbn [images totalFiles totalSizeBytes totalSizeFormatted].
  split; [done|].
  destruct (entries disk) as [files|]; cbn [default].
  2:{ repeat split; done. }
  assert (Hnames : ∀ l : list string,
    map (λ img, prop img "filename")
      (map (λ filename,
              spread {[ "filename" := JSString filename ]}
                (default ∅ (getImageStats formatFileSize disk filename))) l)
    = map JSString l).
  { induction l as [|file l IH]; simpl; [done|].
    f_equal; [|exact IH].
    unfold prop, spread, getImageStats.
    by destruct (stat disk file). }
  assert (Hsizes : ∀ l : list string,
    foldr (λ img sum, size_or_zero img + sum) 0
      (map (λ filename,
              spread {[ "filename" := JSString filename ]}
                (default ∅ (getImageStats formatFileSize disk filename))) l)
    = foldr (λ file sum, stat_size file + sum) 0 l).
  { induction l as [|file l IH]; simpl; [done|].
    rewrite IH. f_equal.
    unfold size_or_zero, prop, spread, getImageStats, stat_size.
    by destruct (stat disk file). }
  split; [apply Hnames|]. split; [by rewrite length_map|].
  split; [by rewrite fold_left_sizes, Z.add_0_l|].
  split; [done|]. intros [=].
Qed.

End ListingProperties.

(** ** Instances of the properties above *)

Lemma crop_fits_viewport_witness :
  1 ≤ 16
  ∧ inside (Screenshot.processImage_crop "overworld" 16).1
      Pipeline.viewport_width Pipeline.viewport_height.
Proof.
  assert (Hsize : 1 ≤ 16) by lia.
  split; [exact Hsize|].
  apply (proj2 (crop_fits_viewport "overworld" 16 Hsize)). lia.
Defined.

Lemma crop_centred_witness :
  Screenshot.exact_size 15 = true
  ∧ 2 * left (Screenshot.processImage_crop "end" 15).1
    + width (Screenshot.processImage_crop "end" 15).1 - 2 * 1720 = 1.
Proof.
  assert (Hsize : Screenshot.exact_size 15 = true) by reflexivity.
  split; [exact Hsize|].
  pose proof (crop_centred "end" 15 Hsize) as H. cbv zeta in H.
  destruct H as [Hleft _].
  assert (Hodd : 2 * left (Screenshot.processImage_crop "end" 15).1
                 + width (Screenshot.processImage_crop "end" 15).1 - 2 * 1720 ≠ 0)
    by (vm_compute; discriminate).
  lia.
Defined.

Lemma crops_nested_witness :
  Screenshot.exact_size 2 = true
  ∧ Screenshot.exact_size 16 = true
  ∧ 2 ≤ 16
  ∧ within (Screenshot.processImage_crop "end" 2).1
           (Screenshot.processImage_crop "end" 16).1.
Proof.
  assert (H2 : Screenshot.exact_size 2 = true) by reflexivity.
  assert (H16 : Screenshot.exact_size 16 = true) by reflexivity.
  assert (Hle : 2 ≤ 16) by lia.
  split; [exact H2|]. split; [exact H16|]. split; [exact Hle|].
  exact (crops_nested "end" 2 16 H2 H16 Hle).
Defined.

Lemma normalizeDimension_idempotent_witness :
  Utils.normalizeDimension (JSString "NETHER") = Some "nether"
  ∧ Utils.isValidDimension (JSString "NETHER") = Some true
  ∧ Utils.normalizeDimension (JSString "nether") = Some "nether"
  ∧ "nether" ∈ Utils.validDimensions.
Proof.
  assert (H : Utils.normalizeDimension (JSString "NETHER") = Some "nether")
    by reflexivity.
  assert (Hvalid : Utils.isValidDimension (JSString "NETHER") = Some true)
    by reflexivity.
  split; [exact H|]. split; [exact Hvalid|].
  pose proof (normalizeDimension_idempotent (JSString "NETHER") "nether" H)
    as (_ & Hagain & Hin).
  split; [exact Hagain|]. exact (proj1 (Hin Hvalid)).
Defined.

Lemma generateJobId_injective_witness :
  "overworld" ∈ Utils.validDimensions
  ∧ 0 ≤ 1700000000000
  ∧ Utils.generateJobId (JSString "12345") "overworld" 1700000000000
    = Utils.generateJobId (JSNumber 12345) "overworld" 1700000000000
  ∧ ToString (JSString "12345") = ToString (JSNumber 12345).
Proof.
  assert (Hd : "overworld" ∈ Utils.validDimensions) by apply list_elem_of_here.
  assert (Ht : 0 ≤ 1700000000000) by lia.
  assert (Heq : Utils.generateJobId (JSString "12345") "overworld" 1700000000000
                = Utils.generateJobId (JSNumber 12345) "overworld" 1700000000000)
    by (vm_compute; reflexivity).
  split; [exact Hd|]. split; [exact Ht|]. split; [exact Heq|].
  exact (proj1 (generateJobId_injective (JSString "12345") (JSNumber 12345)
                  "overworld" "overworld" 1700000000000 1700000000000
                  Hd Hd Ht Ht Heq)).
Defined.

Lemma get_status_exposes_by_status_witness :
  let st := (Server.post_generate Samples.runtime Samples.body
               1700000000000 1700000000000 Server.init).2 in
  let job := Server.stored st Samples.jobId in
  Server.jobs st !! Samples.jobId = Some job
  ∧ prop job "status" = JSString "processing"
  ∧ is_Some (Server.json (Server.get_status Samples.jobId None st).1 !! "progress").
Proof.
  intros st job.
  assert (Hjob : Server.jobs st !! Samples.jobId = Some job)
    by (vm_compute; reflexivity).
  assert (Hstatus : prop job "status" = JSString "processing")
    by (vm_compute; reflexivity).
  split; [exact Hjob|]. split; [exact Hstatus|].
  pose proof (get_status_exposes_by_status Samples.jobId None st job Hjob) as H.
  cbv zeta in H. exact (proj2 (proj1 H) Hstatus).
Defined.

Lemma stats_add_up_witness :
  let rt := Samples.runtime in
  let st := (Server.post_generate rt Samples.body 1700000000000 1700000000000
               Server.init).2 in
  Server.reachable rt Server.RevSized st
  ∧ ∃ total completed failed processing,
      prop (Server.json (Monitor.get_stats rt st)) "totalJobs" = JSNumber total
      ∧ total = completed + failed + processing.
Proof.
  intros rt st.
  pose proof (sample_admitted_reachable rt Server.RevSized) as Hreach.
  split; [exact Hreach|].
  destruct (stats_add_up rt Server.RevSized st Hreach)
    as (total & completed & failed & processing & Htotal & _ & _ & _ & _ & _ & _ & Hsum).
  exists total, completed, failed, processing. split; [exact Htotal|exact Hsum].
Defined.

Lemma stats_processing_within_active_witness :
  let rt := Samples.runtime in
  let st := (Server.post_generate rt Samples.body 1700000000000 1700000000000
               Server.init).2 in
  Server.reachable rt Server.RevSized st
  ∧ ∃ processing active,
      prop (Server.json (Monitor.get_stats rt st)) "processingJobs"
      = JSNumber processing
      ∧ 0 ≤ processing ≤ active.
Proof.
  intros rt st.
  pose proof (sample_admitted_reachable rt Server.RevSized) as Hreach.
  split; [exact Hreach|].
  destruct (stats_processing_within_active rt Server.RevSized st Hreach)
    as (processing & active & Hprocessing & _ & _ & Hle & _).
  exists processing, active. split; [exact Hprocessing|exact Hle].
Defined.

Lemma fulfilled_job_is_served_witness :
  let rt := Samples.runtime in
  let st := (Server.post_generate rt Samples.body 1700000000000 1700000000000
               Server.init).2 in
  let p := Server.mkPending Samples.jobId (JSString "12345") "overworld" in
  let outcome := Captured 204800 1700000040000 1700000040000 in
  let st' :=
    Server.on_fulfilled rt Samples.jobId
      (Server.generateMap rt Server.RevSized p outcome) 1700000040001
      (Server.settle 0 st) in
  let file := Some ("200 KB", JSString "2023-11-14T22:14:00.000Z") in
  let answer := (Server.get_status Samples.jobId file st').1 in
  Server.inFlight st !! 0%nat = Some p
  ∧ Server.exec rt Server.RevSized (Server.Fulfil 0 outcome 1700000040001) st
    = Some st'
  ∧ Server.status_of st' Samples.jobId = Some (JSString "ready")
  ∧ prop (Server.json answer) "imageUrl"
    = JSString
        "http://localhost:3001/generated-maps/seed-12345-overworld-8k-1700000040000.png"
  ∧ prop (Server.own_props (prop (Server.json answer) "metadata")) "fileSize"
    = JSString "200 KB".
Proof.
  intros rt st p outcome st' file answer.
  assert (Hk : Server.inFlight st !! 0%nat = Some p) by reflexivity.
  assert (Hexec :
    Server.exec rt Server.RevSized (Server.Fulfil 0 outcome 1700000040001) st
    = Some st') by reflexivity.
  split; [exact Hk|]. split; [exact Hexec|].
  pose proof (fulfilled_job_is_served rt Server.RevSized 0 p
                204800 1700000040000 1700000040000 1700000040001 st st' file
                Hk Hexec) as H.
  cbv beta zeta iota delta [file] in H.
  destruct H as (_ & Hready & _ & _ & Himage & _ & _ & _ & Hsize & _).
  split; [exact Hready|]. split; [|exact Hsize].
  etransitivity; [exact Himage|]. vm_compute. reflexivity.
Defined.

Lemma isValidSize_accepts_witness :
  16 ≠ 0
  ∧ Text.stops_decimal "k" = true
  ∧ Utils.isValidSize (JSString "16k") = true
  ∧ Utils.isValidSize (JSString "17 ") = false
  ∧ Utils.isValidSize JSUndefined = false.
Proof.
  assert (Hn : 16 ≠ 0) by lia.
  assert (Hm : 17 ≠ 0) by lia.
  assert (Hk : Text.stops_decimal "k" = true) by reflexivity.
  assert (Hs : Text.stops_decimal " " = true) by reflexivity.
  split; [exact Hn|]. split; [exact Hk|]. split; [|split].
  - apply (proj2 (proj2 isValidSize_accepts 16 "k" Hn Hk)). lia.
  - apply not_true_is_false.
    intros H%(proj1 (proj2 isValidSize_accepts 17 " " Hm Hs)). lia.
  - apply (proj1 isValidSize_accepts). apply list_elem_of_here.
Defined.

Lemma post_cleanup_removes_only_expired_witness :
  let rt := Samples.runtime in
  let st := (Server.post_generate rt Samples.body 1700000000000 1700000000000
               Server.init).2 in
  let job := Server.stored st Samples.jobId in
  Server.jobs st !! Samples.jobId = Some job
  ∧ prop job "status" = JSString "processing"
  ∧ Server.jobs (Server.post_cleanup rt 1800000000000 st).2 !! Samples.jobId
    = Some job.
Proof.
  intros rt st job.
  assert (Hjob : Server.jobs st !! Samples.jobId = Some job)
    by (vm_compute; reflexivity).
  assert (Hstatus : prop job "status" = JSString "processing")
    by (vm_compute; reflexivity).
  split; [exact Hjob|]. split; [exact Hstatus|].
  pose proof (post_cleanup_removes_only_expired rt 1800000000000 st) as H.
  cbv zeta in H. destruct H as (_ & _ & _ & Hstays & _).
  exact (Hstays Samples.jobId job Hjob (or_introl Hstatus)).
Defined.

Lemma session_order_witness :
  let world (c : Pipeline.Call) :=
    match c with
    | Pipeline.Goto _ _ => Pipeline.Throws "Navigation timeout of 30000 ms exceeded"
    | _ => Pipeline.Returns 0
    end in
  let clock := Pipeline.mkClock 1700000039000 1700000040000 1700000040000 in
  let seed := JSString "12345" in
  is_Some (Pipeline.first_failure world (Pipeline.setup_calls seed "overworld"))
  ∧ Pipeline.count Pipeline.is_page_call
      (Pipeline.start
         (Pipeline.generateMap world Samples.runtime clock seed "overworld"
            Samples.jobId 8 false)).2
    = 0%nat.
Proof.
  intros world clock seed.
  assert (Hfail :
    is_Some (Pipeline.first_failure world (Pipeline.setup_calls seed "overworld")))
    by (vm_compute; eexists; reflexivity).
  split; [exact Hfail|].
  pose proof (session_order world Samples.runtime clock seed "overworld"
                Samples.jobId 8 false) as H.
  cbv zeta in H.
  destruct (Screenshot.processImage_crop "overworld" 8) as [crop finalSize].
  destruct (Screenshot8k.processImage_crop "overworld") as [crop8k finalSize8k].
  exact (proj1 H Hfail).
Defined.
